(** * Deep Research pipeline: a shallow embedding of
    src/deepresearch/models.ts and src/deepresearch/research-pipeline.ts.

    Strings are Stdlib strings (the JS UTF-16 code units are modelled as
    characters); JS numbers that the code uses as counts and indices are
    integers [Z]; the [SearchResults] class is a record around its array.
    The language-model and search collaborators are left abstract: every
    theorem quantifies over all of their behaviours. *)

From Stdlib Require Import String Ascii ZArith Lia.
From stdpp Require Import base list gmap strings pretty.

Open Scope Z_scope.

(* ------------------------------------------------------------------ *)
(** ** Data model (models.ts) *)

(** [class SearchResult]. [filteredRawContent?: string] is an option. *)
Record SearchResult := mkSearchResult {
  title : string;
  link : string;
  content : string;
  filteredRawContent : option string
}.

(** [class SearchResults { results: SearchResult[] }] *)
Record SearchResults := mkSearchResults { results : list SearchResult }.

(** [SearchResults.add]: [new SearchResults([...this.results, ...other.results])] *)
Definition add (this other : SearchResults) : SearchResults :=
  mkSearchResults (results this ++ results other).

(** The loop body of [SearchResults.dedup]: [seenLinks] is the
    [Set<string>] threaded through the [for ... of] loop. *)
Fixpoint dedup_loop (seenLinks : gset string) (rs : list SearchResult)
  : list SearchResult :=
  match rs with
  | [] => []
  | result :: rest =>
      if decide (link result ∈ seenLinks) then dedup_loop seenLinks rest
      else result :: dedup_loop ({[link result]} ∪ seenLinks) rest
  end.

(** [SearchResults.dedup()] *)
Definition dedup (this : SearchResults) : SearchResults :=
  mkSearchResults (dedup_loop ∅ (results this)).

(* ------------------------------------------------------------------ *)
(** ** Array helpers with JS semantics *)

(** [arr.slice(0, n)] for an integer [n > 0] (the code only calls it so). *)
Definition slice0 {A} (xs : list A) (n : Z) : list A := take (Z.to_nat n) xs.

(** [arr[j]] for an index [j] the code has already range-checked; the
    default is never reached on the paths below. *)
Definition js_index (rs : list SearchResult) (j : Z) (dflt : SearchResult)
  : SearchResult := nth (Z.to_nat j) rs dflt.

(* ------------------------------------------------------------------ *)
(** ** Pipeline configuration (RESEARCH_CONFIG and constructor options) *)

Record ResearchConfig := mkResearchConfig {
  budget : Z;
  maxQueries : Z;
  maxSources : Z
}.

(* ------------------------------------------------------------------ *)
(** ** generateInitialQueries

    [queries] is what [generateResearchQueries(topic)] returned (the
    planner's parsed query list). *)
Definition generateInitialQueries (cfg : ResearchConfig) (topic : string)
  (queries : list string) : list string :=
  let allQueries := topic :: queries in
  let allQueries :=
    if 0 <? maxQueries cfg then slice0 allQueries (maxQueries cfg)
    else allQueries in
  match allQueries with
  | [] => []          (* "ERROR: No initial queries generated" *)
  | _ => allQueries
  end.

(* ------------------------------------------------------------------ *)
(** ** webSearch: the query handed to [searchOnExa] *)

(** [if (query.length > 400) query = query.substring(0, 400);] *)
Definition webSearch_query (query : string) : string :=
  if (400 <? String.length query)%nat then substring 0 400 query else query.

(* ------------------------------------------------------------------ *)
(** ** filterResults

    [sources] is [parsedFilter.object.sources], the index list returned by
    the model ([z.array(z.number())]; modelled with integer entries).
    Returns [[filteredResults, limitedSources]]. *)
Definition filterResults (cfg : ResearchConfig) (results0 : SearchResults)
  (sources : list Z) (dflt : SearchResult) : SearchResults * list Z :=
  let limitedSources :=
    if 0 <? maxSources cfg then slice0 sources (maxSources cfg) else sources in
  let n := Z.of_nat (length (results results0)) in
  let filteredResults :=
    mkSearchResults
      (map (fun i => js_index (results results0) (i - 1) dflt)
         (List.filter (fun i => (0 <? i) && (i <=? n)) limitedSources)) in
  (filteredResults, limitedSources).

(* ------------------------------------------------------------------ *)
(** ** conductIterativeResearch

    The evaluator ([evaluateResearchCompleteness], an LLM call followed by
    a parsing call) and the search step ([performSearch]) are arguments.
    The evaluator also receives the number of the call, so that it may
    answer differently every time. The run records a trace of the
    collaborator calls it makes. *)
Inductive event :=
  | Evaluated (additionalQueries : list string)
  | Searched (queriesToUse : list string).

Definition Evaluator := nat -> string -> SearchResults -> list string -> list string.
Definition Searcher := list string -> SearchResults.

Section ResearchLoop.
Variable cfg : ResearchConfig.
Variable evaluateResearchCompleteness : Evaluator.
Variable performSearch : Searcher.
Variable topic : string.

(** One call per iteration of [for (let i = 0; i < budget; i++)];
    [fuel] is the number of iterations left. *)
Fixpoint research_loop (i fuel : nat) (results0 : SearchResults)
  (allQueries : list string) : SearchResults * list string * list event :=
  match fuel with
  | O => (results0, allQueries, [])
  | S fuel' =>
      let additionalQueries :=
        evaluateResearchCompleteness i topic results0 allQueries in
      match additionalQueries with
      | [] => (results0, allQueries, [Evaluated []])      (* break *)
      | _ =>
          let queriesToUse :=
            if 0 <? maxQueries cfg
            then slice0 additionalQueries (maxQueries cfg)
            else additionalQueries in
          let newResults := performSearch queriesToUse in
          let '(r, qs, tr) :=
            research_loop (S i) fuel' (add results0 newResults)
              (allQueries ++ queriesToUse) in
          (r, qs, Evaluated additionalQueries :: Searched queriesToUse :: tr)
      end
  end.

(** With an integer [budget], the loop runs [max 0 budget] iterations. *)
Definition conductIterativeResearch (initialResults : SearchResults)
  (allQueries : list string) : SearchResults * list string * list event :=
  research_loop 0 (Z.to_nat (budget cfg)) initialResults allQueries.
End ResearchLoop.

(** Number of evaluate-then-search refinement cycles in a trace. *)
Definition is_search (e : event) : bool :=
  match e with Searched _ => true | Evaluated _ => false end.
Definition refinement_cycles (tr : list event) : nat :=
  length (List.filter is_search tr).

(* ------------------------------------------------------------------ *)
(** ** Summarization of one query's results *)

(** A computation that returns a value or throws (a rejected promise). *)
Inductive Outcome (A : Type) :=
  | Ok (a : A)
  | Throws (e : string).
Arguments Ok {A} a.
Arguments Throws {A} e.

(** [Promise.all]: all values, or the rejection of a failing task. *)
Fixpoint promise_all {A} (ps : list (Outcome A)) : Outcome (list A) :=
  match ps with
  | [] => Ok []
  | Throws e :: _ => Throws e
  | Ok a :: rest =>
      match promise_all rest with
      | Ok xs => Ok (a :: xs)
      | Throws e => Throws e
      end
  end.

(** The summary model call [generateText(...)] on the raw content of a
    document for a query; it may fail. *)
Definition Summarizer := SearchResult -> string -> Outcome string.

Section Summarization.
Variable generateText_summary : Summarizer.

(** [_summarize_content_async]: [result.text] of the model call; there is
    no try/catch, so a failure of the call propagates. *)
Definition _summarize_content_async (result : SearchResult) (query : string)
  : Outcome string :=
  generateText_summary result query.

(** [processSearchResultsWithSummarization] *)
Definition processSearchResultsWithSummarization (query : string)
  (results0 : list SearchResult) : Outcome (list SearchResult) :=
  (* [if (!result.content) continue;] *)
  let resultInfo :=
    List.filter (fun result => negb (String.eqb (content result) EmptyString)) results0 in
  let summarizationTasks :=
    map (fun result => _summarize_content_async result query) resultInfo in
  match promise_all summarizationTasks with
  | Throws e => Throws e
  | Ok summarizedContents =>
      Ok (zip_with
            (fun result summarizedContent =>
               mkSearchResult
                 (* [result.title || (empty string)] *)
                 (if String.eqb (title result) EmptyString then EmptyString else title result)
                 (link result) (content result) (Some summarizedContent))
            resultInfo summarizedContents)
  end.
End Summarization.

(* ------------------------------------------------------------------ *)
(** ** The file system and the search cache (saveToCache, loadFromCache)

    The file system is a map from paths to file contents. A computation on
    it returns a value or throws, and yields the next file system. *)
Abbreviation FS := (gmap string string).
Definition M (A : Type) := FS -> Outcome A * FS.

Definition retM {A} (a : A) : M A := fun s => (Ok a, s).
Definition bindM {A B} (m : M A) (k : A -> M B) : M B :=
  fun s => match m s with
           | (Ok a, s1) => k a s1
           | (Throws e, s1) => (Throws e, s1)
           end.
Notation "'let*' x ':=' m 'in' k" := (bindM m (fun x => k))
  (at level 200, x name, m at level 100, k at level 200).

(** [try { m } finally { fin }]: [fin] runs on both exits; an exception of
    [fin] replaces the outcome of [m]. *)
Definition try_finally {A} (m : M A) (fin : M unit) : M A :=
  fun s => match m s with
           | (r, s1) =>
               match fin s1 with
               | (Ok _, s2) => (r, s2)
               | (Throws e, s2) => (Throws e, s2)
               end
           end.

(** [try { m } catch (e) { h(e) }] *)
Definition try_catch {A} (m : M A) (h : string -> M A) : M A :=
  fun s => match m s with
           | (Ok a, s1) => (Ok a, s1)
           | (Throws e, s1) => h e s1
           end.

Section Cache.
(** Which writes fail (disk full, permissions, ...): any behaviour. *)
Variable write_fails : string -> FS -> bool.
(** [crypto.createHash("md5").update(query).digest("hex")] *)
Variable md5hex : string -> string.
(** [JSON.stringify(results)] of a [SearchResults] object, and
    [JSON.parse(text).results] wrapped by [new SearchResults(...)]
    (a [Throws] when [JSON.parse] throws). *)
Variable json_stringify : SearchResults -> string.
Variable json_parse : string -> Outcome SearchResults.

Definition writeFileSync (p c : string) : M unit :=
  fun s => if write_fails p s then (Throws "EIO", s) else (Ok tt, <[p:=c]> s).

Definition existsSync (p : string) : M bool :=
  fun s => match s !! p with Some _ => (Ok true, s) | None => (Ok false, s) end.

Definition unlinkSync (p : string) : M unit :=
  fun s => match s !! p with
           | Some _ => (Ok tt, delete p s)
           | None => (Throws "ENOENT", s)
           end.

Definition readFileSync (p : string) : M string :=
  fun s => match s !! p with
           | Some c => (Ok c, s)
           | None => (Throws "ENOENT", s)
           end.

(** [path.join(dir, name)] (normalisation of [dir] is not modelled) *)
Definition path_join (dir name : string) : string := (dir ++ "/" ++ name)%string.

(** [getCachePath] *)
Definition getCachePath (cacheDir query : string) : string :=
  path_join cacheDir ("exa_" ++ md5hex query ++ ".json")%string.

(** [getLockPath] *)
Definition getLockPath (cachePath : string) : string := (cachePath ++ ".lock")%string.

(** The pipeline fields [useCache] and [cacheDir]. *)
Record CacheConfig := mkCacheConfig {
  useCache : bool;
  cacheDir : option string
}.

(** [if (!this.useCache || !this.cacheDir) return ...]: the cache is used
    only with [useCache] set and a non-empty directory. *)
Definition cache_dir_in_use (cc : CacheConfig) : option string :=
  match cacheDir cc with
  | Some dir => if useCache cc && negb (String.eqb dir EmptyString)
                then Some dir else None
  | None => None
  end.

(** [saveToCache] *)
Definition saveToCache (cc : CacheConfig) (query : string)
  (results0 : SearchResults) : M unit :=
  match cache_dir_in_use cc with
  | None => retM tt
  | Some dir =>
      let cachePath := getCachePath dir query in
      let lockPath := getLockPath cachePath in
      let* _ := writeFileSync lockPath EmptyString in
      try_finally
        (writeFileSync cachePath (json_stringify results0))
        (let* b := existsSync lockPath in
         if b then unlinkSync lockPath else retM tt)
  end.

(** [loadFromCache] *)
Definition loadFromCache (cc : CacheConfig) (query : string)
  : M (option SearchResults) :=
  match cache_dir_in_use cc with
  | None => retM None
  | Some dir =>
      let cachePath := getCachePath dir query in
      let lockPath := getLockPath cachePath in
      let* cacheExists := existsSync cachePath in
      let* locked := existsSync lockPath in
      if cacheExists && negb locked then
        try_catch
          (let* txt := readFileSync cachePath in
           fun s => match json_parse txt with
                    | Ok r => (Ok (Some r), s)
                    | Throws e => (Throws e, s)
                    end)
          (fun _ => retM None)
      else retM None
  end.

(** A sequence of cache writes; each leaves its file system behind,
    whether it returned or threw. *)
Definition run_puts (cc : CacheConfig) (ops : list (string * SearchResults))
  (s : FS) : FS :=
  fold_left (fun s op => snd (saveToCache cc (fst op) (snd op) s)) ops s.
End Cache.

(* ------------------------------------------------------------------ *)
(** ** String representations (models.ts) *)

(** A line break (the ["\n"] of the template literals). *)
Definition nl : string := String "010"%char EmptyString.

(** JS truthiness of an optional string: [undefined], [null] and the
    empty string are falsy. *)
Definition js_truthy_opt (o : option string) : bool :=
  match o with
  | Some s => negb (String.eqb s EmptyString)
  | None => false
  end.

(** [SearchResult.toString()] *)
Definition SearchResult_toString (this : SearchResult) : string :=
  if js_truthy_opt (filteredRawContent this)
  then ("Title: " ++ title this ++ nl ++ "Link: " ++ link this ++ nl ++
        "Refined Content: " ++ default EmptyString (filteredRawContent this))%string
  else ("Title: " ++ title this ++ nl ++ "Link: " ++ link this ++ nl ++
        "Raw Content: " ++ substring 0 1000 (content this))%string.

(** [SearchResult.shortStr()] *)
Definition SearchResult_shortStr (this : SearchResult) : string :=
  ("Title: " ++ title this ++ nl ++ "Link: " ++ link this ++ nl ++
   "Raw Content: " ++ substring 0 1000 (content this))%string.

(** [this.results.map((result, i) => `[${i + 1}] ${show(result)}`)] *)
Definition numbered_entries (show : SearchResult -> string)
  (rs : list SearchResult) : list string :=
  imap (fun i result => ("[" ++ pretty (i + 1)%nat ++ "] " ++ show result)%string) rs.

(** [SearchResults.toString()]: the entries joined with ["\n\n"]. *)
Definition SearchResults_toString (this : SearchResults) : string :=
  String.concat (nl ++ nl) (numbered_entries SearchResult_toString (results this)).

(** [SearchResults.shortStr()] *)
Definition SearchResults_shortStr (this : SearchResults) : string :=
  String.concat (nl ++ nl) (numbered_entries SearchResult_shortStr (results this)).

(* ------------------------------------------------------------------ *)
(** ** searchOnExa (apiClients.ts) and webSearch *)

(** An item of [search.results]; its [title] may be null. *)
Record ExaResult := mkExaResult {
  exa_title : option string;
  url : string;
  text : string
}.

(** [exa.searchAndContents(query, ...)] behind Next's [unstable_cache];
    it may fail. *)
Definition ExaSearch := string -> Outcome (list ExaResult).

(** The callback of [search.results.map(...)]. *)
Definition exa_result_to_SearchResult (result : ExaResult) : SearchResult :=
  mkSearchResult
    (* [result.title || (empty string)] *)
    (match exa_title result with Some t => t | None => EmptyString end)
    (url result) (text result) None.

(** [searchOnExa({ query })] *)
Definition searchOnExa (exa : ExaSearch) (query : string) : Outcome SearchResults :=
  match exa query with
  | Throws e => Throws ("Exa web search API error: " ++ e)%string
  | Ok hits => Ok (mkSearchResults (map exa_result_to_SearchResult hits))
  end.

(** [webSearch(query)]: the query is truncated first, and the truncated
    query is the one both Exa and the summarizer receive. *)
Definition webSearch (exa : ExaSearch) (generateText_summary : Summarizer)
  (query : string) : Outcome SearchResults :=
  let query := webSearch_query query in
  match searchOnExa exa query with
  | Throws e => Throws e
  | Ok searchResults =>
      match processSearchResultsWithSummarization generateText_summary query
              (results searchResults) with
      | Throws e => Throws e
      | Ok processedResults => Ok (mkSearchResults processedResults)
      end
  end.

(* ------------------------------------------------------------------ *)
(** ** performSearch

    [queries.map(async (query) => ...)] starts the tasks one after the
    other, in the order of [queries]; each runs synchronously up to its
    first [await]: the cache lookup, and for a miss the call of
    [this.webSearch(query)]. So every lookup happens before any cache
    write. The web searches then settle in some order [ord] (indices into
    [queries]); each task resumes there and writes the cache. *)
Inductive task_state :=
  | Resolved (r : SearchResults)
  | Rejected (e : string)
  | Pending (query : string).

Section PerformSearch.
Variable write_fails : string -> FS -> bool.
Variable md5hex : string -> string.
Variable json_stringify : SearchResults -> string.
Variable json_parse : string -> Outcome SearchResults.
(** [this.webSearch] *)
Variable web_search : string -> Outcome SearchResults.
Variable cc : CacheConfig.

(** The start of a task, up to its first [await]. *)
Definition start_task (query : string) (s : FS) : task_state * FS :=
  if useCache cc then
    match loadFromCache md5hex json_parse cc query s with
    | (Ok (Some cachedResults), s1) => (Resolved cachedResults, s1)
    | (Ok None, s1) => (Pending query, s1)
    | (Throws e, s1) => (Rejected e, s1)
    end
  else (Pending query, s).

Fixpoint start_tasks (queries : list string) (s : FS) : list task_state * FS :=
  match queries with
  | [] => ([], s)
  | query :: rest =>
      let '(t, s1) := start_task query s in
      let '(ts, s2) := start_tasks rest s1 in
      (t :: ts, s2)
  end.

(** The rest of a task once its web search settles. *)
Definition finish_task (query : string) (s : FS) : task_state * FS :=
  match web_search query with
  | Throws e => (Rejected e, s)
  | Ok results0 =>
      if useCache cc then
        match saveToCache write_fails md5hex json_stringify cc query results0 s with
        | (Ok _, s1) => (Resolved results0, s1)
        | (Throws e, s1) => (Rejected e, s1)
        end
      else (Resolved results0, s)
  end.

(** The pending tasks resume in the order [ord]; the rejections are
    recorded in time order. *)
Fixpoint finish_tasks (ord : list nat) (ts : list task_state) (s : FS)
  (rejections : list string) : list task_state * FS * list string :=
  match ord with
  | [] => (ts, s, rejections)
  | j :: ord' =>
      match ts !! j with
      | Some (Pending query) =>
          let '(t, s1) := finish_task query s in
          finish_tasks ord' (<[j:=t]> ts) s1
            (rejections ++ match t with Rejected e => [e] | _ => [] end)
      | _ => finish_tasks ord' ts s rejections
      end
  end.

Fixpoint resolved_all (ts : list task_state) : option (list SearchResults) :=
  match ts with
  | [] => Some []
  | Resolved r :: rest =>
      match resolved_all rest with Some l => Some (r :: l) | None => None end
  | _ => None
  end.

Definition task_rejection (t : task_state) : option string :=
  match t with Rejected e => Some e | _ => None end.

Definition task_pending (t : task_state) : option string :=
  match t with Pending query => Some query | _ => None end.

(** [performSearch(queries)]: the outcome of [Promise.all] and the
    combination ([None] while a task has not settled), the file system,
    and the queries sent to the web search. *)
Definition performSearch (queries : list string) (ord : list nat) (s : FS)
  : option (Outcome SearchResults) * FS * list string :=
  let '(ts, s1) := start_tasks queries s in
  let '(ts', s2, rejections) := finish_tasks ord ts s1 [] in
  let outcome :=
    match omap task_rejection ts ++ rejections with
    | e :: _ => Some (Throws e)
    | [] =>
        match resolved_all ts' with
        | Some resultsList =>
            let combinedResults := fold_left add resultsList (mkSearchResults []) in
            Some (Ok (dedup combinedResults))
        | None => None
        end
    end in
  (outcome, s2, omap task_pending ts).
End PerformSearch.

(** [processSearchResults(topic, results)] *)
Definition processSearchResults (topic : string) (results0 : SearchResults)
  : SearchResults :=
  dedup results0.

(* ------------------------------------------------------------------ *)
(** ** clarifyTopic and runResearch *)

(** [getUserInputWithTimeout]: the simulated input resolves to the empty
    string when the timeout fires. *)
Definition getUserInputWithTimeout (prompt : string) (timeout : Z) : string :=
  EmptyString.

(** [String.prototype.toLowerCase] on the ASCII range. *)
Definition ascii_lower (c : ascii) : ascii :=
  let n := nat_of_ascii c in
  if (65 <=? n)%nat && (n <=? 90)%nat then ascii_of_nat (n + 32) else c.

Fixpoint toLowerCase (s : string) : string :=
  match s with
  | EmptyString => EmptyString
  | String c s' => String (ascii_lower c) (toLowerCase s')
  end.

(** The fields of the pipeline object that a run updates. *)
Record PipelineState := mkPipelineState {
  currentSpending : Z;
  clarificationContext : option string
}.

Section RunResearch.
Variable cfg : ResearchConfig.
Variable userTimeout : Z.
(** [generateResearchQueries]: the planner's parsed query list. *)
Variable generateResearchQueries : string -> list string.
(** [this.performSearch] *)
Variable search : Searcher.
Variable evaluateResearchCompleteness : Evaluator.
(** The parsed [sources] of the filter model for the formatted results. *)
Variable filterSources : string -> SearchResults -> list Z.
(** [generateResearchAnswer]: the trimmed text of the answer model. *)
Variable generateResearchAnswer : string -> SearchResults -> string.
Variable dflt : SearchResult.

(** [clarifyTopic(topic)]; [fuel] bounds the number of its rounds (the
    model calls of each round are only logged). *)
Fixpoint clarifyTopic (fuel : nat) (interactive : bool) (topic : string)
  (st : PipelineState) : option (string * PipelineState) :=
  match fuel with
  | O => None
  | S fuel' =>
      if interactive then
        let userInput := getUserInputWithTimeout
          (nl ++ "Please provide additional details or type 'continue' to proceed with the research: ")%string
          userTimeout in
        if String.eqb (toLowerCase userInput) "continue" ||
           negb (js_truthy_opt (Some userInput)) || String.eqb userInput EmptyString
        then
          Some (if js_truthy_opt (clarificationContext st)
                then (topic ++ nl ++ nl ++ "Context: " ++
                      default EmptyString (clarificationContext st))%string
                else topic, st)
        else
          let ctx :=
            if js_truthy_opt (clarificationContext st)
            then (default EmptyString (clarificationContext st) ++ nl ++ userInput)%string
            else userInput in
          clarifyTopic fuel' interactive topic
            (mkPipelineState (currentSpending st + 1) (Some ctx))
      else Some (topic, st)
  end.

(** The interactive feedback loop [while (currentSpending < budget)];
    every round that does not return raises [currentSpending]. *)
Fixpoint feedback_loop (fuel : nat) (clarifiedTopic answer : string)
  (filteredResults : SearchResults) (st : PipelineState) : string * PipelineState :=
  match fuel with
  | O => (answer, st)
  | S fuel' =>
      if currentSpending st <? budget cfg then
        let userFeedback := getUserInputWithTimeout
          (nl ++ "Are you satisfied with this answer? (yes/no) If no, please provide feedback: ")%string
          (userTimeout * 5) in
        if String.eqb (toLowerCase userFeedback) "yes" ||
           negb (js_truthy_opt (Some userFeedback)) || String.eqb userFeedback EmptyString
        then (answer, st)
        else
          let clarifiedTopic :=
            (clarifiedTopic ++ nl ++ nl ++ "Report:" ++ answer ++ nl ++ nl ++
             "Additional Feedback: " ++ userFeedback)%string in
          let st := mkPipelineState (currentSpending st + 1) (clarificationContext st) in
          feedback_loop fuel' clarifiedTopic
            (generateResearchAnswer clarifiedTopic filteredResults) filteredResults st
      else (answer, st)
  end.

(** [runResearch(topic)]: the answer, the filtered results it was built
    from, and the pipeline state afterwards (the debug file is not
    modelled). [None] when [clarifyTopic] runs out of rounds. *)
Definition runResearch (fuel : nat) (interactive : bool) (topic : string)
  (st : PipelineState) : option (string * SearchResults * PipelineState) :=
  match (if interactive then clarifyTopic fuel interactive topic st
         else Some (topic, st)) with
  | None => None
  | Some (clarifiedTopic, st) =>
      let initialQueries :=
        generateInitialQueries cfg clarifiedTopic (generateResearchQueries clarifiedTopic) in
      let initialResults := search initialQueries in
      let '(results0, _, _) :=
        conductIterativeResearch cfg evaluateResearchCompleteness search clarifiedTopic
          initialResults initialQueries in
      let processedResults := processSearchResults clarifiedTopic results0 in
      let '(filteredResults, _) :=
        filterResults cfg processedResults
          (filterSources clarifiedTopic processedResults) dflt in
      let answer := generateResearchAnswer clarifiedTopic filteredResults in
      if interactive then
        let '(answer, st) :=
          feedback_loop (Z.to_nat (budget cfg - currentSpending st))
            clarifiedTopic answer filteredResults st in
        Some (answer, filteredResults, st)
      else Some (answer, filteredResults, st)
  end.
End RunResearch.

(* ------------------------------------------------------------------ *)
(** ** The constructor and the shared RESEARCH_CONFIG object *)

(** The [RESEARCH_CONFIG] object of config.ts. *)
Record ConfigObject := mkConfigObject {
  config_fields : ResearchConfig;
  maxTokens : Z
}.

Definition RESEARCH_CONFIG : ConfigObject :=
  mkConfigObject (mkResearchConfig 2 2 5) 8192.

(** Config objects live in a heap; a pipeline holds a reference to its
    [researchConfig] object, and the default argument is the module's
    [RESEARCH_CONFIG] object, at address [RESEARCH_CONFIG_ref]. *)
Abbreviation Heap := (gmap nat ConfigObject).
Definition RESEARCH_CONFIG_ref : nat := 0.
Definition initial_heap : Heap := {[RESEARCH_CONFIG_ref := RESEARCH_CONFIG]}.

(** The constructor's [options] ([null] and [undefined] are [None]). *)
Record Options := mkOptions {
  opt_maxQueries : option Z;
  opt_maxSources : option Z;
  opt_maxCompletionTokens : option Z;
  opt_userTimeout : option Z;
  opt_interactive : option bool;
  opt_cacheDir : option string;
  opt_useCache : option bool
}.

Record Pipeline := mkPipeline {
  researchConfig : nat;
  pipeline_userTimeout : Z;
  pipeline_interactive : bool;
  pipeline_useCache : bool;
  pipeline_cacheDir : option string
}.

Definition set_maxQueries (m : Z) (o : ConfigObject) : ConfigObject :=
  mkConfigObject
    (mkResearchConfig (budget (config_fields o)) m (maxSources (config_fields o)))
    (maxTokens o).

Definition set_maxSources (m : Z) (o : ConfigObject) : ConfigObject :=
  mkConfigObject
    (mkResearchConfig (budget (config_fields o)) (maxQueries (config_fields o)) m)
    (maxTokens o).

Definition set_maxTokens (m : Z) (o : ConfigObject) : ConfigObject :=
  mkConfigObject (config_fields o) m.

(** [a || b] on strings. *)
Definition js_or_str (a : option string) (b : string) : string :=
  if js_truthy_opt a then default EmptyString a else b.

(** [path.join(a, b)]; an empty first segment is dropped. *)
Definition path_join_segments (a b : string) : string :=
  if String.eqb a EmptyString then b else path_join a b.

(** [new DeepResearchPipeline(MODEL_CONFIG, researchConfig, PROMPTS, options)];
    [home] and [userprofile] are [process.env.HOME] and
    [process.env.USERPROFILE]. The [mkdirSync] calls are not modelled
    (the file system model has no directories). *)
Definition new_DeepResearchPipeline (researchConfig : nat) (options : Options)
  (home userprofile : option string) (h : Heap) : Pipeline * Heap :=
  let h := match opt_maxQueries options with
           | Some m => alter (set_maxQueries m) researchConfig h | None => h end in
  let h := match opt_maxSources options with
           | Some m => alter (set_maxSources m) researchConfig h | None => h end in
  let h := match opt_maxCompletionTokens options with
           | Some m => alter (set_maxTokens m) researchConfig h | None => h end in
  let userTimeout := match opt_userTimeout options with
                     | Some t => if t =? 0 then 30 else t | None => 30 end in
  let interactive := match opt_interactive options with Some b => b | None => false end in
  let useCache := match opt_useCache options with Some b => b | None => false end in
  let cacheDir :=
    if useCache
    then Some (js_or_str (opt_cacheDir options)
                 (path_join_segments (js_or_str home (js_or_str userprofile EmptyString))
                    ".open_deep_research_cache"))
    else None in
  (mkPipeline researchConfig userTimeout interactive useCache cacheDir, h).

(** The cache fields of a pipeline. *)
Definition pipeline_cache (p : Pipeline) : CacheConfig :=
  mkCacheConfig (pipeline_useCache p) (pipeline_cacheDir p).

(* ================================================================== *)
(** * Properties *)

(* ------------------------------------------------------------------ *)
(** ** dedup *)

Module Dedup.

Lemma dedup_loop_links_fresh (seen : gset string) (rs : list SearchResult) d :
  d ∈ dedup_loop seen rs -> link d ∉ seen.
Proof.
  revert seen; induction rs as [|r rs IH]; intros seen Hd; simpl in Hd.
  - set_solver.
  - case_decide as Hr.
    + by apply IH.
    + apply elem_of_cons in Hd as [-> | Hd]; [done|].
      apply IH in Hd. set_solver.
Qed.

Lemma dedup_loop_NoDup (seen : gset string) (rs : list SearchResult) :
  NoDup (link <$> (dedup_loop seen rs)).
Proof.
  revert seen; induction rs as [|r rs IH]; intros seen; simpl.
  - constructor.
  - case_decide as Hr; [apply IH|].
    simpl. constructor; [|apply IH].
    intros Hin. apply list_elem_of_fmap in Hin as (d & Hl & Hd).
    apply dedup_loop_links_fresh in Hd. set_solver.
Qed.

Lemma dedup_loop_links (seen : gset string) (rs : list SearchResult) u :
  u ∈ link <$> (dedup_loop seen rs) <-> u ∈ link <$> rs /\ u ∉ seen.
Proof.
  revert seen; induction rs as [|r rs IH]; intros seen; simpl.
  - set_solver.
  - case_decide as Hr.
    + rewrite IH. rewrite elem_of_cons. split; [naive_solver|].
      intros [[-> | H] Hn]; [done | auto].
    + simpl. rewrite !elem_of_cons, IH, not_elem_of_union, elem_of_singleton.
      split.
      * intros [-> | (H & Hne & Hn)]; [auto | auto].
      * intros [[-> | H] Hn]; [auto|].
        destruct (decide (u = link r)) as [-> | Hne]; auto.
Qed.

Lemma dedup_loop_sublist (seen : gset string) (rs : list SearchResult) :
  dedup_loop seen rs `sublist_of` rs.
Proof.
  revert seen; induction rs as [|r rs IH]; intros seen; simpl.
  - constructor.
  - case_decide; [by apply sublist_cons|]. by apply sublist_skip.
Qed.

(** A list whose links are distinct and unseen passes through unchanged. *)
Lemma dedup_loop_id (seen : gset string) (rs : list SearchResult) :
  NoDup (link <$> rs) -> (forall d, d ∈ rs -> link d ∉ seen) ->
  dedup_loop seen rs = rs.
Proof.
  revert seen; induction rs as [|r rs IH]; intros seen Hnd Hfresh; simpl; [done|].
  simpl in Hnd. apply NoDup_cons in Hnd as [Hr Hnd].
  case_decide as Hs.
  - exfalso. apply (Hfresh r); [left|]; done.
  - f_equal. apply IH; [done|].
    intros d Hd Hin. apply elem_of_union in Hin as [Hin | Hin].
    + apply elem_of_singleton in Hin. apply Hr.
      rewrite <- Hin. by apply list_elem_of_fmap_2.
    + apply (Hfresh d); [by right|done].
Qed.

(** Membership in the output: exactly the first occurrences of unseen links. *)
Lemma dedup_loop_first (seen : gset string) (rs : list SearchResult) d :
  d ∈ dedup_loop seen rs <->
  (exists pre post, rs = pre ++ d :: post /\ (link d ∉ (link <$> pre)) /\ link d ∉ seen).
Proof.
  revert seen; induction rs as [|r rs IH]; intros seen; simpl.
  - split; [set_solver|]. intros (pre & post & Heq & _). by destruct pre.
  - case_decide as Hr.
    + rewrite IH. split.
      * intros (pre & post & -> & Hpre & Hs). exists (r :: pre), post.
        split; [done|]. split; [|done]. simpl. rewrite elem_of_cons.
        intros [Heq | H]; [|done]. apply Hs. rewrite Heq. done.
      * intros (pre & post & Heq & Hpre & Hs). destruct pre as [|r' pre].
        -- simpl in Heq. injection Heq as -> ->. done.
        -- simpl in Heq. injection Heq as -> ->.
           exists pre, post. simpl in Hpre. set_solver.
    + rewrite elem_of_cons, IH. split.
      * intros [-> | (pre & post & -> & Hpre & Hs)].
        -- exists [], rs. set_solver.
        -- exists (r :: pre), post. simpl. set_solver.
      * intros (pre & post & Heq & Hpre & Hs). destruct pre as [|r' pre].
        -- simpl in Heq. injection Heq as -> ->. by left.
        -- simpl in Heq. injection Heq as -> ->. right.
           exists pre, post. simpl in Hpre. set_solver.
Qed.

(** Claim C5. [dedup] is idempotent; its output holds exactly one document
    per distinct url of the input (the urls are pairwise distinct and the
    url set is unchanged); a document is kept exactly when it is the first
    occurrence of its url in input order; and the kept documents appear in
    their input order (the output is a sublist of the input). *)
Theorem dedup_spec (X : SearchResults) :
  dedup (dedup X) = dedup X /\
  NoDup (link <$> results (dedup X)) /\
  (forall u, u ∈ link <$> results X <-> u ∈ link <$> results (dedup X)) /\
  (forall d, d ∈ results (dedup X) <->
     (exists pre post, results X = pre ++ d :: post /\ link d ∉ (link <$> pre))) /\
  results (dedup X) `sublist_of` results X.
Proof.
  destruct X as [rs]. unfold dedup; simpl.
  split; [|split; [|split; [|split]]].
  - f_equal. apply dedup_loop_id.
    + apply dedup_loop_NoDup.
    + intros d _. apply not_elem_of_empty.
  - apply dedup_loop_NoDup.
  - intros u. rewrite dedup_loop_links. split; [|naive_solver].
    intros H; split; [done|]. apply not_elem_of_empty.
  - intros d. rewrite dedup_loop_first. split.
    + intros (pre & post & ? & ? & _). eauto.
    + intros (pre & post & ? & ?). exists pre, post.
      split; [done|]. split; [done|]. apply not_elem_of_empty.
  - apply dedup_loop_sublist.
Qed.

End Dedup.

(* ------------------------------------------------------------------ *)
(** ** filterResults *)

Module Filter.

Definition doc (u : string) : SearchResult := mkSearchResult u u u None.
Definition d1 := doc "a".
Definition d2 := doc "b".
Definition d3 := doc "c".
Definition cfg_sources (m : Z) := mkResearchConfig 2 2 m.

(** The document the model means by the (1-based) index [i], if [i] is
    within [1, k]. *)
Definition doc_at (rs : list SearchResult) (i : Z) : option SearchResult :=
  if (0 <? i) && (i <=? Z.of_nat (length rs)) then rs !! Z.to_nat (i - 1) else None.

(** The filter as the spec words it: drop the indices outside [1, k]
    first, then keep the first [maxSources] of the remaining ones. *)
Definition filterResults_spec (cfg : ResearchConfig) (results0 : SearchResults)
  (sources : list Z) : list SearchResult :=
  let valid := omap (doc_at (results results0)) sources in
  if 0 <? maxSources cfg then take (Z.to_nat (maxSources cfg)) valid else valid.

Example filter_example :
  fst (filterResults (cfg_sources 5) (mkSearchResults [d1; d2; d3]) [0; 1; 8; 3] d1)
  = mkSearchResults [d1; d3].
Proof. reflexivity. Qed.

Example filter_example_capped :
  fst (filterResults (cfg_sources 2) (mkSearchResults [d1; d2; d3]) [0; 1; 8; 3] d1)
  = mkSearchResults [d1].
Proof. reflexivity. Qed.

Lemma js_index_doc_at (rs : list SearchResult) (i : Z) dflt :
  (0 <? i) && (i <=? Z.of_nat (length rs)) = true ->
  doc_at rs i = Some (js_index rs (i - 1) dflt).
Proof.
  intros Hv. unfold doc_at, js_index. rewrite Hv.
  apply andb_prop in Hv as [H1 H2]. apply Z.ltb_lt in H1. apply Z.leb_le in H2.
  destruct (lookup_lt_is_Some_2 rs (Z.to_nat (i - 1))) as [x Hx]; [lia|].
  rewrite Hx. f_equal. symmetry. by apply nth_lookup_Some.
Qed.

Lemma filter_map_doc_at (rs : list SearchResult) (l : list Z) dflt :
  map (fun i => js_index rs (i - 1) dflt)
      (List.filter (fun i => (0 <? i) && (i <=? Z.of_nat (length rs))) l)
  = omap (doc_at rs) l.
Proof.
  induction l as [|i l IH]; simpl; [done|].
  destruct ((0 <? i) && (i <=? Z.of_nat (length rs))) eqn:Hv.
  - rewrite (js_index_doc_at rs i dflt Hv). simpl. by rewrite IH.
  - unfold doc_at at 1. rewrite Hv. done.
Qed.

Lemma length_filter_le {A} (p : A -> bool) (l : list A) :
  (length (List.filter p l) <= length l)%nat.
Proof. induction l as [|a l IH]; simpl; [lia|]. destruct (p a); simpl; lia. Qed.

(** Claim C2, as stated: dropping the invalid indices before the cap. *)
Lemma filterResults_drop_then_cap_counterexample :
  ~ (forall cfg rs sources dflt,
       results (fst (filterResults cfg rs sources dflt))
       = filterResults_spec cfg rs sources).
Proof.
  intros H.
  specialize (H (cfg_sources 2) (mkSearchResults [d1; d2; d3]) [0; 1; 8; 3] d1).
  vm_compute in H. discriminate H.
Qed.

(** The list of kept indices and the documents they give. *)
Lemma filterResults_shape (cfg : ResearchConfig) (rs : SearchResults)
  (sources : list Z) (dflt : SearchResult) :
  snd (filterResults cfg rs sources dflt)
    = (if 0 <? maxSources cfg then take (Z.to_nat (maxSources cfg)) sources
       else sources) /\
  results (fst (filterResults cfg rs sources dflt))
    = omap (doc_at (results rs)) (snd (filterResults cfg rs sources dflt)).
Proof.
  unfold filterResults, slice0; simpl. split; [done|]. apply filter_map_doc_at.
Qed.

(** Claim C2 (amended). [filterResults] first caps the model's index list
    to its first [maxSources] entries (when [maxSources > 0]; otherwise
    the list is kept whole) and only then drops the indices outside
    [1, k], k the number of results: the output is the documents at the
    valid indices among the capped entries, in the model's order. Hence
    it holds at most [maxSources] documents, possibly fewer than there are
    valid indices in the whole response. *)
Theorem filterResults_cap_then_drop (cfg : ResearchConfig) (rs : SearchResults)
  (sources : list Z) (dflt : SearchResult) :
  snd (filterResults cfg rs sources dflt)
    = (if 0 <? maxSources cfg then take (Z.to_nat (maxSources cfg)) sources
       else sources) /\
  results (fst (filterResults cfg rs sources dflt))
    = omap (doc_at (results rs)) (snd (filterResults cfg rs sources dflt)) /\
  (0 < maxSources cfg ->
   (length (results (fst (filterResults cfg rs sources dflt)))
    <= Z.to_nat (maxSources cfg))%nat).
Proof.
  unfold filterResults, slice0; simpl.
  split; [done|]. split; [apply filter_map_doc_at|].
  intros Hm. apply Z.ltb_lt in Hm as Hm'. rewrite Hm'.
  rewrite length_map.
  etransitivity; [apply length_filter_le|]. rewrite length_take. lia.
Qed.

(** Claim C10. The model's indices are not deduplicated: a valid index
    given twice within the cap yields its document twice. *)
Theorem filterResults_keeps_repeated_index (cfg : ResearchConfig)
  (rs : SearchResults) (i : Z) (x dflt : SearchResult) :
  (maxSources cfg <= 0 \/ 2 <= maxSources cfg) ->
  1 <= i ->
  results rs !! Z.to_nat (i - 1) = Some x ->
  results (fst (filterResults cfg rs [i; i] dflt)) = [x; x].
Proof.
  intros Hm Hi Hx.
  destruct (filterResults_shape cfg rs [i; i] dflt) as (Hl & Ho).
  rewrite Ho, Hl.
  assert (Hlen : (Z.to_nat (i - 1) < length (results rs))%nat)
    by (apply lookup_lt_is_Some_1; by rewrite Hx).
  assert (Hd : doc_at (results rs) i = Some x).
  { unfold doc_at. rewrite Hx.
    replace ((0 <? i) && (i <=? Z.of_nat (length (results rs)))) with true; [done|].
    symmetry. apply andb_true_intro. split; [apply Z.ltb_lt | apply Z.leb_le]; lia. }
  remember (doc_at (results rs)) as f eqn:Hf.
  destruct (0 <? maxSources cfg) eqn:Hpos.
  - apply Z.ltb_lt in Hpos.
    replace (Z.to_nat (maxSources cfg)) with (S (S (Z.to_nat (maxSources cfg) - 2)))
      by lia.
    simpl. rewrite Hd. by destruct (Z.to_nat (maxSources cfg) - 2)%nat.
  - simpl. by rewrite Hd.
Qed.

Lemma filterResults_keeps_repeated_index_witness :
  results (fst (filterResults (cfg_sources 5) (mkSearchResults [d1; d2; d3]) [1; 1] d2))
  = [d1; d1].
Proof.
  apply (filterResults_keeps_repeated_index (cfg_sources 5)
           (mkSearchResults [d1; d2; d3]) 1 d1 d2).
  - simpl. lia.
  - lia.
  - reflexivity.
Defined.

End Filter.

(* ------------------------------------------------------------------ *)
(** ** generateInitialQueries and webSearch *)

Module Queries.

Example initial_queries_example :
  generateInitialQueries (mkResearchConfig 2 2 5) "t" ["q1"; "q2"; "q3"]
  = ["t"; "q1"]%string.
Proof. reflexivity. Qed.

Example initial_queries_empty_plan :
  generateInitialQueries (mkResearchConfig 2 2 5) "t" [] = ["t"]%string.
Proof. reflexivity. Qed.

(** Claim C9. The topic is put in front of the planner's queries before
    the cap to [maxQueries] is applied: the batch is the topic followed by
    the first [maxQueries - 1] planner queries (all of them when
    [maxQueries <= 0]); so it starts with the topic and is never empty,
    even for an empty plan. *)
Theorem generateInitialQueries_topic_first (cfg : ResearchConfig)
  (topic : string) (queries : list string) :
  generateInitialQueries cfg topic queries
    = (if 0 <? maxQueries cfg
       then take (Z.to_nat (maxQueries cfg)) (topic :: queries)
       else topic :: queries) /\
  head (generateInitialQueries cfg topic queries) = Some topic /\
  generateInitialQueries cfg topic queries <> [].
Proof.
  unfold generateInitialQueries, slice0.
  destruct (0 <? maxQueries cfg) eqn:Hm.
  - apply Z.ltb_lt in Hm.
    replace (Z.to_nat (maxQueries cfg)) with (S (Z.to_nat (maxQueries cfg) - 1))
      by lia.
    simpl. done.
  - done.
Qed.

Lemma substring0_prefix (n : nat) (s : string) :
  (n <= String.length s)%nat ->
  String.length (substring 0 n s) = n /\
  exists rest, s = (substring 0 n s ++ rest)%string.
Proof.
  revert n; induction s as [|c s IH]; intros n Hn; destruct n as [|n]; simpl in *.
  - split; [done|]. by exists EmptyString.
  - lia.
  - split; [done|]. by exists (String c s).
  - destruct (IH n) as [Hl [rest Hr]]; [lia|].
    split; [by rewrite Hl|]. exists rest.
    transitivity (String c (substring 0 n s ++ rest)); [by rewrite <- Hr | reflexivity].
Qed.

Example truncation_example :
  webSearch_query ("x"%string) = "x"%string.
Proof. reflexivity. Qed.

(** Claim C6. The query sent to the search collaborator is the query
    itself when it has at most 400 characters, and otherwise exactly its
    first 400 characters ([substring(0, 400)], a prefix of length 400);
    the function is total: no query is rejected. *)
Theorem webSearch_query_truncation (query : string) :
  ((String.length query <= 400)%nat -> webSearch_query query = query) /\
  ((400 < String.length query)%nat ->
     webSearch_query query = substring 0 400 query /\
     String.length (webSearch_query query) = 400%nat /\
     exists rest, query = (webSearch_query query ++ rest)%string).
Proof.
  unfold webSearch_query. split.
  - intros Hle. destruct (Nat.ltb_spec 400 (String.length query)); [lia|done].
  - intros Hlt. destruct (Nat.ltb_spec 400 (String.length query)); [|lia].
    split; [done|]. apply substring0_prefix. lia.
Qed.

End Queries.

(* ------------------------------------------------------------------ *)
(** ** conductIterativeResearch *)

Module Loop.

Section LoopFacts.
Variable cfg : ResearchConfig.
Variable evaluate : Evaluator.
Variable search : Searcher.
Variable topic : string.

Lemma research_loop_cycles_le i fuel r qs :
  (refinement_cycles (snd (research_loop cfg evaluate search topic i fuel r qs))
   <= fuel)%nat.
Proof.
  unfold refinement_cycles.
  revert i r qs; induction fuel as [|fuel IH]; intros i r qs; simpl; [lia|].
  destruct (evaluate i topic r qs) as [|q0 qs0]; [simpl; lia|].
  destruct (research_loop cfg evaluate search topic (S i) fuel _ _) as [[r' qs'] tr] eqn:E.
  simpl.
  specialize (IH (S i) (add r (search (if 0 <? maxQueries cfg
                 then slice0 (q0 :: qs0) (maxQueries cfg) else q0 :: qs0)))
              (qs ++ (if 0 <? maxQueries cfg
                 then slice0 (q0 :: qs0) (maxQueries cfg) else q0 :: qs0))).
  rewrite E in IH. simpl in IH. lia.
Qed.

Lemma research_loop_no_fuel i r qs :
  research_loop cfg evaluate search topic i 0 r qs = (r, qs, []).
Proof. reflexivity. Qed.

Lemma research_loop_stops i fuel r qs pre post :
  snd (research_loop cfg evaluate search topic i fuel r qs)
    = pre ++ Evaluated [] :: post -> post = [].
Proof.
  revert i r qs pre; induction fuel as [|fuel IH]; intros i r qs pre; simpl.
  - by destruct pre.
  - destruct (evaluate i topic r qs) as [|q0 qs0].
    + simpl. intros H. destruct pre as [|e pre]; simpl in H.
      * by injection H.
      * injection H as _ H. by destruct pre.
    + destruct (research_loop cfg evaluate search topic (S i) fuel _ _)
        as [[r' qs'] tr] eqn:E. simpl.
      intros H. destruct pre as [|e1 [|e2 pre]]; simpl in H.
      * discriminate H.
      * discriminate H.
      * injection H as _ _ H. eapply IH. rewrite E. exact H.
Qed.

Lemma research_loop_full i fuel r qs :
  (forall j r' qs', evaluate j topic r' qs' <> []) ->
  refinement_cycles (snd (research_loop cfg evaluate search topic i fuel r qs)) = fuel.
Proof.
  intros Hne. unfold refinement_cycles.
  revert i r qs; induction fuel as [|fuel IH]; intros i r qs; simpl; [done|].
  destruct (evaluate i topic r qs) as [|q0 qs0] eqn:Ev; [by destruct (Hne i r qs)|].
  destruct (research_loop cfg evaluate search topic (S i) fuel _ _) as [[r' qs'] tr] eqn:E.
  simpl.
  specialize (IH (S i) (add r (search (if 0 <? maxQueries cfg
                 then slice0 (q0 :: qs0) (maxQueries cfg) else q0 :: qs0)))
              (qs ++ (if 0 <? maxQueries cfg
                 then slice0 (q0 :: qs0) (maxQueries cfg) else q0 :: qs0))).
  rewrite E in IH. simpl in IH. lia.
Qed.
End LoopFacts.

Example loop_example :
  let ev := fun (_ : nat) (_ : string) (_ : SearchResults) (_ : list string) => ["more"%string] in
  let sr := fun (_ : list string) => mkSearchResults [] in
  snd (conductIterativeResearch (mkResearchConfig 2 2 5) ev sr "t" (mkSearchResults []) [])
  = [Evaluated ["more"%string]; Searched ["more"%string];
     Evaluated ["more"%string]; Searched ["more"%string]].
Proof. reflexivity. Qed.

(** Claim C1. Whatever the evaluator answers, a run performs at most
    [budget] evaluate-then-search refinement cycles (exactly [budget] when
    the evaluator never returns an empty list); with [budget = 0] (or less)
    it calls no collaborator and returns the initial results and queries;
    and once the evaluator returns an empty query list, the loop stops:
    nothing follows that evaluation in the trace. *)
Theorem conductIterativeResearch_budget (cfg : ResearchConfig)
  (evaluate : Evaluator) (search : Searcher) (topic : string)
  (initialResults : SearchResults) (allQueries : list string) :
  let '(res, qs, tr) :=
    conductIterativeResearch cfg evaluate search topic initialResults allQueries in
  (refinement_cycles tr <= Z.to_nat (budget cfg))%nat /\
  ((forall j r q, evaluate j topic r q <> []) ->
   refinement_cycles tr = Z.to_nat (budget cfg)) /\
  (budget cfg <= 0 -> tr = [] /\ res = initialResults /\ qs = allQueries) /\
  (forall pre post, tr = pre ++ Evaluated [] :: post -> post = []).
Proof.
  unfold conductIterativeResearch.
  pose proof (research_loop_cycles_le cfg evaluate search topic 0
                (Z.to_nat (budget cfg)) initialResults allQueries) as Hle.
  pose proof (research_loop_full cfg evaluate search topic 0
                (Z.to_nat (budget cfg)) initialResults allQueries) as Hfull.
  pose proof (research_loop_stops cfg evaluate search topic 0
                (Z.to_nat (budget cfg)) initialResults allQueries) as Hstop.
  destruct (research_loop cfg evaluate search topic 0 (Z.to_nat (budget cfg))
              initialResults allQueries) as [[res qs] tr] eqn:E.
  simpl in *. split; [done|]. split; [done|]. split; [|eauto].
  intros Hb. replace (Z.to_nat (budget cfg)) with O in E by lia.
  rewrite research_loop_no_fuel in E. by injection E as -> -> ->.
Qed.

End Loop.

(* ------------------------------------------------------------------ *)
(** ** processSearchResultsWithSummarization *)

Module Summaries.

Definition has_content (r : SearchResult) : bool :=
  negb (String.eqb (content r) EmptyString).

(** The document fields other than the summary. *)
Definition doc_fields (r : SearchResult) : string * string * string :=
  (title r, link r, content r).

Definition empty_doc : SearchResult := mkSearchResult "t" "u" EmptyString None.
Definition full_doc : SearchResult := mkSearchResult "t" "v" "text" None.
Definition always_ok : Summarizer := fun _ _ => Ok "summary"%string.
Definition always_fails : Summarizer := fun _ _ => Throws "rate limited"%string.

Example summarize_example :
  processSearchResultsWithSummarization always_ok "q" [empty_doc; full_doc]
  = Ok [mkSearchResult "t" "v" "text" (Some "summary"%string)].
Proof. reflexivity. Qed.

Lemma promise_all_Ok {A} (ps : list (Outcome A)) xs :
  promise_all ps = Ok xs -> ps = Ok <$> xs.
Proof.
  revert xs; induction ps as [|[a|e] ps IH]; intros xs H; simpl in H.
  - by injection H as <-.
  - destruct (promise_all ps) as [ys|e] eqn:E; [|discriminate].
    injection H as <-. by rewrite fmap_cons, (IH ys).
  - discriminate.
Qed.

Lemma promise_all_all_Ok {A} (xs : list A) : promise_all (Ok <$> xs) = Ok xs.
Proof.
  induction xs as [|x xs IH]; [done|].
  rewrite fmap_cons. cbn [promise_all]. by rewrite IH.
Qed.

Lemma promise_all_Throws {A} (ps : list (Outcome A)) :
  (exists e, promise_all ps = Throws e) <-> (exists e, Throws e ∈ ps).
Proof.
  induction ps as [|[a|e] ps IH]; simpl.
  - split; [by intros [e ?] | intros [e He]; by apply elem_of_nil in He].
  - destruct (promise_all ps) as [ys|e] eqn:E.
    + split; [by intros [e ?]|]. intros [e He].
      apply elem_of_cons in He as [He|He]; [discriminate|].
      destruct IH as [_ IH]. destruct IH as [e' He']; [by exists e|discriminate].
    + split; [|eauto]. intros _. destruct IH as [IH _].
      destruct IH as [e' He']; [by exists e|]. exists e'. by right.
  - split; [|eauto]. intros _. exists e. by left.
Qed.

(** The shape of a successful batch: one output per document with
    content, with that document's fields and the summary returned for it. *)
Lemma zip_summaries (summ : Summarizer) (query : string)
  (info : list SearchResult) (xs : list string) :
  (fun result => _summarize_content_async summ result query) <$> info = Ok <$> xs ->
  Forall2 (fun d r => doc_fields d = doc_fields r /\
             exists s, summ r query = Ok s /\ filteredRawContent d = Some s)
    (zip_with
       (fun result summarizedContent =>
          mkSearchResult
            (if String.eqb (title result) EmptyString then EmptyString else title result)
            (link result) (content result) (Some summarizedContent)) info xs)
    info.
Proof.
  revert xs; induction info as [|r info IH]; intros [|x xs] H;
    rewrite ?fmap_cons, ?fmap_nil in H; try discriminate; simpl.
  - constructor.
  - injection H as Hx Hrest. constructor; [|by apply IH].
    split.
    + unfold doc_fields; simpl. f_equal. f_equal.
      destruct (String.eqb_spec (title r) EmptyString) as [->|]; done.
    + exists x. split; [exact Hx|done].
Qed.

Lemma filter_has_content_elem (rs : list SearchResult) r :
  r ∈ List.filter has_content rs <-> r ∈ rs /\ has_content r = true.
Proof. rewrite !list_elem_of_In. apply filter_In. Qed.

(** Claim C3, as stated: every document stays in the result set. *)
Lemma processSearchResults_drops_empty_content :
  ~ (forall (summ : Summarizer) (query : string) (rs out : list SearchResult),
       processSearchResultsWithSummarization summ query rs = Ok out ->
       link <$> out = link <$> rs).
Proof.
  intros H.
  specialize (H always_ok "q"%string [empty_doc; full_doc]
                [mkSearchResult "t" "v" "text" (Some "summary"%string)] eq_refl).
  vm_compute in H. discriminate H.
Qed.

(** Claim C3 (amended). Documents with empty raw text are skipped: they
    get no summarization task and are dropped from the result set. A
    successful batch is exactly the documents with non-empty raw text, in
    input order, each with its own fields and the summary returned for it;
    and the batch succeeds whenever every such document is summarized. *)
Theorem processSearchResults_keeps_documents_with_content (summ : Summarizer)
  (query : string) (rs : list SearchResult) :
  (forall out, processSearchResultsWithSummarization summ query rs = Ok out ->
     Forall2 (fun d r => doc_fields d = doc_fields r /\
                exists s, summ r query = Ok s /\ filteredRawContent d = Some s)
       out (List.filter has_content rs)) /\
  ((forall r, r ∈ rs -> has_content r = true -> exists s, summ r query = Ok s) ->
   exists out, processSearchResultsWithSummarization summ query rs = Ok out).
Proof.
  unfold processSearchResultsWithSummarization. fold (has_content).
  split.
  - intros out H.
    destruct (promise_all _) as [xs|e] eqn:E; [|discriminate].
    injection H as <-. apply zip_summaries. by apply promise_all_Ok.
  - intros Hall.
    destruct (promise_all _) as [xs|e] eqn:E; [eauto|].
    exfalso. destruct (proj1 (promise_all_Throws _) (ex_intro _ e E)) as [e' He'].
    apply list_elem_of_fmap in He' as (r & Hr & Hin).
    apply filter_has_content_elem in Hin as [Hin Hc].
    destruct (Hall r Hin Hc) as [s Hs].
    unfold _summarize_content_async in Hr. rewrite Hs in Hr. discriminate.
Qed.

(** Claim C4, as stated: a summarization failure never fails the batch. *)
Lemma summarization_failure_fails_batch :
  ~ (forall (summ : Summarizer) (query : string) (rs : list SearchResult),
       exists out, processSearchResultsWithSummarization summ query rs = Ok out).
Proof.
  intros H. destruct (H always_fails "q"%string [full_doc]) as [out Hout].
  vm_compute in Hout. discriminate Hout.
Qed.

(** Claim C4 (amended). A failure of the summarization call is not caught:
    the batch for a query fails (the [Promise.all] rejects, and with it
    [webSearch]) exactly when the summarization of some document with
    non-empty raw text fails; there is no fallback to the raw text. *)
Theorem summarization_failure_propagates (summ : Summarizer) (query : string)
  (rs : list SearchResult) :
  (exists e, processSearchResultsWithSummarization summ query rs = Throws e) <->
  (exists r e, r ∈ rs /\ has_content r = true /\ summ r query = Throws e).
Proof.
  unfold processSearchResultsWithSummarization. fold (has_content).
  assert (Hiff : (exists e, processSearchResultsWithSummarization summ query rs = Throws e)
                 <-> exists e, promise_all
                      ((fun result => _summarize_content_async summ result query)
                         <$> List.filter has_content rs) = Throws e).
  { unfold processSearchResultsWithSummarization. fold (has_content).
    destruct (promise_all _) as [xs|e]; split; intros [e' H]; try discriminate; eauto. }
  unfold processSearchResultsWithSummarization in Hiff. fold (has_content) in Hiff.
  rewrite Hiff, promise_all_Throws. split.
  - intros [e He]. apply list_elem_of_fmap in He as (r & Hr & Hin).
    apply filter_has_content_elem in Hin as [Hin Hc].
    exists r, e. unfold _summarize_content_async in Hr. auto.
  - intros (r & e & Hin & Hc & He). exists e.
    apply list_elem_of_fmap. exists r. split; [by unfold _summarize_content_async|].
    by apply filter_has_content_elem.
Qed.

End Summaries.

(* ------------------------------------------------------------------ *)
(** ** The search cache *)

Module CacheFacts.

Lemma str_app_cons (x : Ascii.ascii) (a b : string) :
  (String x a ++ b)%string = String x (a ++ b).
Proof. reflexivity. Qed.

Lemma str_app_nil (b : string) : (EmptyString ++ b)%string = b.
Proof. reflexivity. Qed.

Lemma str_app_assoc (a b c : string) : ((a ++ b) ++ c = a ++ (b ++ c))%string.
Proof.
  induction a as [|x a IH]; [done|]. rewrite !str_app_cons. by f_equal.
Qed.

Lemma str_length_app (a b : string) :
  String.length (a ++ b) = (String.length a + String.length b)%nat.
Proof.
  induction a as [|x a IH]; [done|]. rewrite str_app_cons. simpl. by rewrite IH.
Qed.

Lemma str_app_inj (a b c d : string) :
  String.length c = String.length d -> (a ++ c = b ++ d)%string -> a = b /\ c = d.
Proof.
  revert b; induction a as [|x a IH]; intros [|y b] Hl H;
    rewrite ?str_app_cons, ?str_app_nil in H.
  - done.
  - subst c. simpl in Hl. rewrite str_length_app in Hl. lia.
  - subst d. simpl in Hl. rewrite str_length_app in Hl. lia.
  - injection H as -> H. destruct (IH b Hl H) as [-> ->]. done.
Qed.

Section Paths.
Variable md5hex : string -> string.

Lemma getCachePath_suffix (dir query : string) :
  getCachePath md5hex dir query = ((dir ++ "/exa_" ++ md5hex query) ++ ".json")%string.
Proof. unfold getCachePath, path_join. by rewrite !str_app_assoc. Qed.

Lemma lock_ne_cache (dir q q' : string) :
  getLockPath (getCachePath md5hex dir q') <> getCachePath md5hex dir q.
Proof.
  unfold getLockPath. rewrite (getCachePath_suffix dir q).
  intros H. apply str_app_inj in H as [_ H]; [discriminate H | reflexivity].
Qed.

Lemma lock_inj (a b : string) : getLockPath a = getLockPath b -> a = b.
Proof. unfold getLockPath. intros H. by apply str_app_inj in H as [-> _]. Qed.

Lemma lock_ne_self (a : string) : getLockPath a <> a.
Proof.
  unfold getLockPath. intros H. apply (f_equal String.length) in H.
  rewrite str_length_app in H. simpl in H. lia.
Qed.
End Paths.

Section Store.
Variable write_fails : string -> FS -> bool.
Variable md5hex : string -> string.
Variable json_stringify : SearchResults -> string.
Variable json_parse : string -> Outcome SearchResults.

Local Abbreviation put := (saveToCache write_fails md5hex json_stringify).
Local Abbreviation get := (loadFromCache md5hex json_parse).
Local Abbreviation puts := (run_puts write_fails md5hex json_stringify).
Local Abbreviation cachePath := (getCachePath md5hex).

(** [saveToCache] with the cache in use, step by step. *)
Lemma saveToCache_in_use (cc : CacheConfig) (dir query : string)
  (R : SearchResults) (s : FS) :
  cache_dir_in_use cc = Some dir ->
  put cc query R s =
    (let cp := cachePath dir query in
     let lp := getLockPath cp in
     if write_fails lp s then (Throws "EIO", s)
     else let s1 := <[lp:=EmptyString]> s in
          if write_fails cp s1 then (Throws "EIO", delete lp s1)
          else (Ok tt, delete lp (<[cp:=json_stringify R]> s1))).
Proof.
  intros Hd. unfold saveToCache. rewrite Hd. cbv zeta.
  unfold bindM, writeFileSync, try_finally, existsSync, unlinkSync, retM.
  destruct (write_fails _ s) eqn:Hl; [done|].
  pose proof (lock_ne_self (cachePath dir query)) as Hne.
  destruct (write_fails (cachePath dir query) _) eqn:Hc.
  - rewrite lookup_insert_eq. cbn beta iota. rewrite lookup_insert_eq. reflexivity.
  - rewrite lookup_insert_ne by congruence. rewrite lookup_insert_eq.
    cbn beta iota. rewrite lookup_insert_ne by congruence.
    rewrite lookup_insert_eq. reflexivity.
Qed.

(** Claim C8. With the cache in use, [put] first writes the lock marker
    (the cache write then runs on a file system holding it), and on
    every exit after that, normal or by a failed cache write, the marker
    is gone; if writing the marker itself fails, [put] throws before any
    cache write and leaves the file system untouched. So a [put] never
    leaves a lock marker behind that was not there before. *)
Theorem saveToCache_releases_lock (cc : CacheConfig) (dir query : string)
  (R : SearchResults) (s : FS) :
  cache_dir_in_use cc = Some dir ->
  ((write_fails (getLockPath (cachePath dir query)) s = false /\
    snd (put cc query R s) !! getLockPath (cachePath dir query) = None /\
    (fst (put cc query R s) = Ok tt <->
     write_fails (cachePath dir query)
       (<[getLockPath (cachePath dir query):=EmptyString]> s) = false)) \/
   (write_fails (getLockPath (cachePath dir query)) s = true /\
    put cc query R s = (Throws "EIO", s))) /\
  (s !! getLockPath (cachePath dir query) = None ->
   snd (put cc query R s) !! getLockPath (cachePath dir query) = None).
Proof.
  intros Hd. rewrite (saveToCache_in_use cc dir query R s Hd). cbv zeta.
  destruct (write_fails (getLockPath (cachePath dir query)) s) eqn:Hl.
  - split; [by right|done].
  - destruct (write_fails (cachePath dir query) _) eqn:Hc; simpl.
    + split; [|by rewrite lookup_delete_eq].
      left. split; [done|]. split; [by rewrite lookup_delete_eq|].
      split; discriminate.
    + split; [|by rewrite lookup_delete_eq].
      left. split; [done|]. split; [by rewrite lookup_delete_eq|done].
Qed.

(** A [put] touches only its own cache file and lock marker. *)
Lemma saveToCache_frame (cc : CacheConfig) (query : string) (R : SearchResults)
  (s : FS) (p : string) :
  (forall dir, cache_dir_in_use cc = Some dir ->
     p <> cachePath dir query /\ p <> getLockPath (cachePath dir query)) ->
  snd (put cc query R s) !! p = s !! p.
Proof.
  intros Hp. destruct (cache_dir_in_use cc) as [dir|] eqn:Hd.
  - destruct (Hp dir eq_refl) as [Hc Hl].
    rewrite (saveToCache_in_use cc dir query R s Hd). cbv zeta.
    destruct (write_fails _ s); [done|].
    destruct (write_fails _ _); simpl;
      rewrite lookup_delete_ne by congruence;
      rewrite ?lookup_insert_ne by congruence; done.
  - unfold saveToCache. rewrite Hd. done.
Qed.

Lemma run_puts_frame (cc : CacheConfig) (dir query : string)
  (ops : list (string * SearchResults)) (s : FS) :
  cache_dir_in_use cc = Some dir ->
  Forall (fun op => cachePath dir (fst op) <> cachePath dir query) ops ->
  puts cc ops s !! cachePath dir query = s !! cachePath dir query /\
  puts cc ops s !! getLockPath (cachePath dir query)
    = s !! getLockPath (cachePath dir query).
Proof.
  intros Hd Hops. revert s; induction Hops as [|[q' R'] ops Hq Hops IH]; intros s;
    [done|].
  unfold run_puts; simpl. fold (puts cc ops (snd (put cc q' R' s))).
  destruct (IH (snd (put cc q' R' s))) as [IH1 IH2]. rewrite IH1, IH2.
  simpl in Hq.
  split; apply saveToCache_frame; intros dir' Hd'; rewrite Hd in Hd';
    injection Hd' as <-; split.
  - done.
  - intros H. symmetry in H. by apply lock_ne_cache in H.
  - apply lock_ne_cache.
  - intros H. apply lock_inj in H. done.
Qed.

(** [loadFromCache] with the cache in use. *)
Lemma loadFromCache_in_use (cc : CacheConfig) (dir query : string) (s : FS) :
  cache_dir_in_use cc = Some dir ->
  fst (get cc query s) =
    match s !! cachePath dir query, s !! getLockPath (cachePath dir query) with
    | Some txt, None =>
        match json_parse txt with Ok r => Ok (Some r) | Throws _ => Ok None end
    | _, _ => Ok None
    end.
Proof.
  intros Hd. unfold loadFromCache. rewrite Hd. cbv zeta.
  unfold bindM, existsSync, try_catch, readFileSync, retM.
  destruct (s !! cachePath dir query) as [txt|] eqn:Hc;
    destruct (s !! getLockPath (cachePath dir query)) eqn:Hl; simpl; try done.
  rewrite Hc. simpl. by destruct (json_parse txt).
Qed.

Section RoundTrip.
(** [JSON.parse] reads back what [JSON.stringify] wrote for a
    [SearchResults] object (all its fields are strings). *)
Hypothesis json_roundtrip : forall R, json_parse (json_stringify R) = Ok R.

(** Claim C7. With the cache in use, a [put] of [R] under [query]
    that returns, followed by any writes under other cache keys
    (returning or throwing), makes [get query] return exactly [R];
    and starting from an empty cache, [get] on a query whose key was
    never written returns absent. *)
Theorem cache_put_get (cc : CacheConfig) (dir query : string) (R : SearchResults) :
  cache_dir_in_use cc = Some dir ->
  (forall (s : FS) (ops : list (string * SearchResults)),
     fst (put cc query R s) = Ok tt ->
     Forall (fun op => cachePath dir (fst op) <> cachePath dir query) ops ->
     fst (get cc query (puts cc ops (snd (put cc query R s)))) = Ok (Some R)) /\
  (forall ops : list (string * SearchResults),
     Forall (fun op => cachePath dir (fst op) <> cachePath dir query) ops ->
     fst (get cc query (puts cc ops ∅)) = Ok None).
Proof.
  intros Hd. split.
  - intros s ops Hok Hops.
    rewrite (loadFromCache_in_use cc dir query _ Hd).
    destruct (run_puts_frame cc dir query ops (snd (put cc query R s)) Hd Hops)
      as [-> ->].
    revert Hok. rewrite (saveToCache_in_use cc dir query R s Hd). cbv zeta.
    destruct (write_fails _ s); [discriminate|].
    destruct (write_fails _ _); simpl; [discriminate|]. intros _.
    rewrite lookup_delete_ne by apply lock_ne_cache.
    rewrite lookup_insert_eq, lookup_delete_eq, json_roundtrip. done.
  - intros ops Hops.
    rewrite (loadFromCache_in_use cc dir query _ Hd).
    destruct (run_puts_frame cc dir query ops ∅ Hd Hops) as [-> ->].
    by rewrite lookup_empty.
Qed.
End RoundTrip.

End Store.

End CacheFacts.

(* ------------------------------------------------------------------ *)
(** ** A concrete serialisation for running the cache

    A length-prefixed text format (a length [n] is [n] marks [#] then a
    dot) that reads back what it writes; it serves as a stand-in for
    [JSON.stringify]/[JSON.parse] on concrete runs. *)

Module Codec.
Import CacheFacts.

Fixpoint marks (n : nat) : string :=
  match n with O => "." | S n => String "#" (marks n) end.

Fixpoint read_len (s : string) : option (nat * string) :=
  match s with
  | EmptyString => None
  | String c s' =>
      if Ascii.eqb c "#" then
        match read_len s' with Some (n, r) => Some (S n, r) | None => None end
      else if Ascii.eqb c "." then Some (O, s') else None
  end.

Fixpoint split_at (n : nat) (s : string) : option (string * string) :=
  match n, s with
  | O, _ => Some (EmptyString, s)
  | S n, String c s' =>
      match split_at n s' with Some (a, r) => Some (String c a, r) | None => None end
  | S _, EmptyString => None
  end.

Definition enc_str (s : string) : string := (marks (String.length s) ++ s)%string.
Definition dec_str (s : string) : option (string * string) :=
  match read_len s with Some (n, r) => split_at n r | None => None end.

Definition enc_opt (o : option string) : string :=
  match o with None => "N" | Some x => String "S" (enc_str x) end.
Definition dec_opt (s : string) : option (option string * string) :=
  match s with
  | String c r =>
      if Ascii.eqb c "N" then Some (None, r)
      else if Ascii.eqb c "S" then
        match dec_str r with Some (x, r') => Some (Some x, r') | None => None end
      else None
  | EmptyString => None
  end.

Definition enc_rec (d : SearchResult) : string :=
  (enc_str (title d) ++ enc_str (link d) ++ enc_str (content d)
   ++ enc_opt (filteredRawContent d))%string.
Definition dec_rec (s : string) : option (SearchResult * string) :=
  match dec_str s with
  | Some (t, s1) =>
      match dec_str s1 with
      | Some (l, s2) =>
          match dec_str s2 with
          | Some (c, s3) =>
              match dec_opt s3 with
              | Some (o, s4) => Some (mkSearchResult t l c o, s4)
              | None => None
              end
          | None => None
          end
      | None => None
      end
  | None => None
  end.

Fixpoint enc_recs (l : list SearchResult) : string :=
  match l with [] => EmptyString | d :: l => (enc_rec d ++ enc_recs l)%string end.
Fixpoint dec_recs (n : nat) (s : string) : option (list SearchResult * string) :=
  match n with
  | O => Some ([], s)
  | S n =>
      match dec_rec s with
      | Some (d, s1) =>
          match dec_recs n s1 with Some (l, s2) => Some (d :: l, s2) | None => None end
      | None => None
      end
  end.

Definition stringify (R : SearchResults) : string :=
  (marks (length (results R)) ++ enc_recs (results R))%string.
Definition parse (s : string) : Outcome SearchResults :=
  match read_len s with
  | Some (n, r) =>
      match dec_recs n r with
      | Some (l, EmptyString) => Ok (mkSearchResults l)
      | _ => Throws "SyntaxError"
      end
  | None => Throws "SyntaxError"
  end.

Example codec_example :
  parse (stringify (mkSearchResults [mkSearchResult "a" "b" "c" (Some "d")]))
  = Ok (mkSearchResults [mkSearchResult "a" "b" "c" (Some "d")]).
Proof. reflexivity. Qed.

Lemma str_app_nil_r (s : string) : (s ++ EmptyString)%string = s.
Proof. induction s as [|c s IH]; [done|]. rewrite str_app_cons. by f_equal. Qed.

Lemma read_len_marks (n : nat) (t : string) : read_len (marks n ++ t) = Some (n, t).
Proof.
  induction n as [|n IH]; simpl marks; rewrite str_app_cons; [done|].
  simpl. rewrite IH. done.
Qed.

Lemma split_at_app (s t : string) : split_at (String.length s) (s ++ t) = Some (s, t).
Proof.
  induction s as [|c s IH]; [done|]. rewrite str_app_cons. simpl. by rewrite IH.
Qed.

Lemma dec_str_enc (s t : string) : dec_str (enc_str s ++ t) = Some (s, t).
Proof.
  unfold dec_str, enc_str. rewrite str_app_assoc, read_len_marks. apply split_at_app.
Qed.

Lemma dec_opt_enc (o : option string) (t : string) :
  dec_opt (enc_opt o ++ t) = Some (o, t).
Proof.
  destruct o as [x|]; simpl enc_opt; rewrite str_app_cons; [|done].
  simpl. by rewrite dec_str_enc.
Qed.

Lemma dec_rec_enc (d : SearchResult) (t : string) : dec_rec (enc_rec d ++ t) = Some (d, t).
Proof.
  destruct d as [ti l c o]. unfold dec_rec, enc_rec; simpl.
  rewrite !str_app_assoc, !dec_str_enc, dec_opt_enc. done.
Qed.

Lemma dec_recs_enc (l : list SearchResult) (t : string) :
  dec_recs (length l) (enc_recs l ++ t) = Some (l, t).
Proof.
  induction l as [|d l IH]; [done|]. simpl.
  rewrite str_app_assoc, dec_rec_enc, IH. done.
Qed.

Lemma parse_stringify (R : SearchResults) : parse (stringify R) = Ok R.
Proof.
  destruct R as [l]. unfold parse, stringify; simpl.
  rewrite read_len_marks, <- (str_app_nil_r (enc_recs l)), dec_recs_enc. done.
Qed.

End Codec.

(* ------------------------------------------------------------------ *)
(** ** String representations *)

Module Formatting.

Lemma str_app_cancel_l (a b c : string) :
  (a ++ b)%string = (a ++ c)%string -> b = c.
Proof.
  induction a as [|x a IH]; [done|]. rewrite !CacheFacts.str_app_cons.
  intros H. injection H as H. by apply IH.
Qed.

Lemma substring0_length (n : nat) (s : string) :
  String.length (substring 0 n s) = Nat.min n (String.length s).
Proof.
  revert n; induction s as [|c s IH]; intros [|n]; simpl; try done.
  by rewrite IH.
Qed.

(** [SearchResult.toString()] and [shortStr()] give the same text exactly
    when the refined content is absent or empty; otherwise [toString]
    shows the refined content instead of the raw one. *)
Theorem toString_is_shortStr_iff (r : SearchResult) :
  SearchResult_toString r = SearchResult_shortStr r <->
  js_truthy_opt (filteredRawContent r) = false.
Proof.
  unfold SearchResult_toString, SearchResult_shortStr.
  destruct (js_truthy_opt (filteredRawContent r)); [|done].
  split; [|discriminate]. intros H.
  repeat (apply str_app_cancel_l in H).
  rewrite !CacheFacts.str_app_cons in H. inversion H.
Qed.

(** [shortStr()] shows at most the first 1000 characters of the raw
    content: its length is 28 plus the lengths of the title and the link
    plus [min 1000 (length content)]. *)
Theorem shortStr_length (r : SearchResult) :
  String.length (SearchResult_shortStr r) =
  (28 + String.length (title r) + String.length (link r) +
   Nat.min 1000 (String.length (content r)))%nat.
Proof.
  unfold SearchResult_shortStr. rewrite !CacheFacts.str_length_app, substring0_length.
  simpl. lia.
Qed.


End Formatting.

(* ------------------------------------------------------------------ *)
(** ** searchOnExa and webSearch *)

Module WebSearchFacts.

Definition has_text (h : ExaResult) : bool := negb (String.eqb (text h) EmptyString).

Lemma filter_map_exa (hits : list ExaResult) :
  List.filter (fun result => negb (String.eqb (content result) EmptyString))
    (map exa_result_to_SearchResult hits)
  = map exa_result_to_SearchResult (List.filter has_text hits).
Proof.
  induction hits as [|h hits IH]; simpl; [done|].
  unfold has_text. destruct (String.eqb (text h) EmptyString); simpl; by rewrite IH.
Qed.

(** A successful [webSearch] returns, in order, one document per Exa hit
    with non-empty text (hits with empty text are dropped): its link is
    the hit's url, its content the hit's text, its title the hit's title
    or the empty string, and its refined content the summary of the hit,
    made for the truncated query that Exa received. *)
Theorem webSearch_ok (exa : ExaSearch) (summ : Summarizer) (query : string)
  (R : SearchResults) :
  webSearch exa summ query = Ok R ->
  exists hits,
    exa (webSearch_query query) = Ok hits /\
    Forall2 (fun h d =>
        link d = url h /\ content d = text h /\ text h <> EmptyString /\
        title d = title (exa_result_to_SearchResult h) /\
        exists s, summ (exa_result_to_SearchResult h) (webSearch_query query) = Ok s /\
                  filteredRawContent d = Some s)
      (List.filter has_text hits) (results R).
Proof.
  unfold webSearch, searchOnExa.
  destruct (exa (webSearch_query query)) as [hits|e] eqn:He; [|discriminate].
  unfold processSearchResultsWithSummarization; simpl.
  destruct (promise_all _) as [xs|e] eqn:Hp; [|discriminate].
  intros H. injection H as <-. exists hits. split; [done|]. simpl.
  apply Summaries.promise_all_Ok in Hp.
  pose proof (Summaries.zip_summaries summ (webSearch_query query) _ xs Hp) as Hz.
  rewrite filter_map_exa in Hz. rewrite filter_map_exa.
  apply Forall2_flip in Hz.
  assert (Hf : Forall (fun h => has_text h = true) (List.filter has_text hits)).
  { apply Forall_forall. intros h Hh. apply list_elem_of_In, filter_In in Hh. by destruct Hh. }
  revert Hz Hf. generalize (zip_with
      (fun result summarizedContent =>
         mkSearchResult
           (if String.eqb (title result) EmptyString then EmptyString else title result)
           (link result) (content result) (Some summarizedContent))
      (map exa_result_to_SearchResult (List.filter has_text hits)) xs).
  generalize (List.filter has_text hits). clear.
  intros l out Hz Hf. revert out Hz.
  induction l as [|h l IH]; intros out Hz; simpl in Hz.
  - inversion Hz; constructor.
  - inversion Hz as [|? d ? out' [Hfields Hs] Hrest]; subst.
    apply Forall_cons in Hf as [Hh Hf]. constructor; [|by apply IH].
    unfold Summaries.doc_fields in Hfields. simpl in Hfields.
    injection Hfields as Ht Hl Hc. repeat split; try done.
    unfold has_text in Hh. intros E. rewrite E in Hh. discriminate.
Qed.

(** A failed Exa call makes [webSearch] throw with the message prefixed
    by ["Exa web search API error: "]; a failed summary of a hit with
    non-empty text makes it throw too. *)
Theorem webSearch_failure (exa : ExaSearch) (summ : Summarizer) (query : string) :
  (forall e, exa (webSearch_query query) = Throws e ->
     webSearch exa summ query = Throws ("Exa web search API error: " ++ e)%string) /\
  (forall hits h e, exa (webSearch_query query) = Ok hits -> h ∈ hits ->
     text h <> EmptyString ->
     summ (exa_result_to_SearchResult h) (webSearch_query query) = Throws e ->
     exists e', webSearch exa summ query = Throws e').
Proof.
  split.
  - intros e He. unfold webSearch, searchOnExa. by rewrite He.
  - intros hits h e He Hh Ht Hs. unfold webSearch, searchOnExa. rewrite He.
    unfold processSearchResultsWithSummarization; simpl.
    destruct (promise_all _) as [xs|e'] eqn:Hp; [|eauto].
    exfalso.
    assert (Hthrow : exists e, promise_all
      ((fun result => _summarize_content_async summ result (webSearch_query query))
         <$> List.filter (fun result => negb (String.eqb (content result) EmptyString))
               (map exa_result_to_SearchResult hits)) = Throws e).
    { apply Summaries.promise_all_Throws. exists e.
      apply list_elem_of_fmap. exists (exa_result_to_SearchResult h).
      split; [done|]. rewrite filter_map_exa. apply list_elem_of_fmap.
      exists h. split; [done|]. apply list_elem_of_In, filter_In.
      split; [by apply list_elem_of_In|]. unfold has_text.
      destruct (String.eqb_spec (text h) EmptyString); done. }
    destruct Hthrow as [e'' Hthrow]. change (promise_all (map
      (fun result => _summarize_content_async summ result (webSearch_query query))
      (List.filter (fun result => negb (String.eqb (content result) EmptyString))
         (map exa_result_to_SearchResult hits))) = Throws e'') in Hthrow.
    rewrite Hp in Hthrow. discriminate.
Qed.

End WebSearchFacts.

(* ------------------------------------------------------------------ *)
(** ** The cache, read and failed writes *)

Module CacheReads.

Section Reads.
Variable write_fails : string -> FS -> bool.
Variable md5hex : string -> string.
Variable json_stringify : SearchResults -> string.
Variable json_parse : string -> Outcome SearchResults.

(** The readable cache entry of [query]: the cache is in use, its file
    exists, its lock marker does not, and its text parses. *)
Definition cache_entry (cc : CacheConfig) (s : FS) (query : string)
  : option SearchResults :=
  match cache_dir_in_use cc with
  | Some dir =>
      match s !! getCachePath md5hex dir query,
            s !! getLockPath (getCachePath md5hex dir query) with
      | Some txt, None =>
          match json_parse txt with Ok r => Some r | Throws _ => None end
      | _, _ => None
      end
  | None => None
  end.

Lemma loadFromCache_exact (cc : CacheConfig) (query : string) (s : FS) :
  loadFromCache md5hex json_parse cc query s = (Ok (cache_entry cc s query), s).
Proof.
  unfold loadFromCache, cache_entry.
  destruct (cache_dir_in_use cc) as [dir|]; [|done]. cbv zeta.
  unfold bindM, existsSync, try_catch, readFileSync, retM.
  destruct (s !! getCachePath md5hex dir query) as [txt|] eqn:Hc;
    destruct (s !! getLockPath (getCachePath md5hex dir query)) eqn:Hl; simpl; try done.
  rewrite Hc. by destruct (json_parse txt).
Qed.

(** [loadFromCache] never throws and never changes the file system: a
    parse error is caught and reads as absent, like a missing file, a
    present lock marker, or a cache not in use. It returns the stored
    results exactly when the file exists, no lock marker does, and the
    text parses. *)
Theorem loadFromCache_total (cc : CacheConfig) (query : string) (s : FS) :
  snd (loadFromCache md5hex json_parse cc query s) = s /\
  (forall r, fst (loadFromCache md5hex json_parse cc query s) = Ok (Some r) <->
     exists dir txt, cache_dir_in_use cc = Some dir /\
       s !! getCachePath md5hex dir query = Some txt /\
       s !! getLockPath (getCachePath md5hex dir query) = None /\
       json_parse txt = Ok r) /\
  (forall e, fst (loadFromCache md5hex json_parse cc query s) <> Throws e).
Proof.
  rewrite loadFromCache_exact. simpl. split; [done|]. split; [|discriminate].
  intros r. unfold cache_entry. split.
  - destruct (cache_dir_in_use cc) as [dir|]; [|discriminate].
    destruct (s !! getCachePath md5hex dir query) as [txt|] eqn:Hc;
      destruct (s !! getLockPath (getCachePath md5hex dir query)) eqn:Hl;
      try discriminate.
    destruct (json_parse txt) as [r'|] eqn:Hp; [|discriminate].
    intros H. injection H as ->. eauto 7.
  - intros (dir & txt & -> & -> & -> & ->). done.
Qed.

End Reads.

End CacheReads.

(* ------------------------------------------------------------------ *)
(** ** performSearch *)

Module Search.

Section Runs.
Variable write_fails : string -> FS -> bool.
Variable md5hex : string -> string.
Variable json_stringify : SearchResults -> string.
Variable json_parse : string -> Outcome SearchResults.
Variable web_search : string -> Outcome SearchResults.
Variable cc : CacheConfig.

Local Abbreviation entry := (CacheReads.cache_entry md5hex json_parse cc).
Local Abbreviation finishes :=
  (finish_tasks write_fails md5hex json_stringify web_search cc).
Local Abbreviation run :=
  (performSearch write_fails md5hex json_stringify json_parse web_search cc).

(** The cache serves [query]. *)
Definition cache_hit (s : FS) (query : string) : bool :=
  match entry s query with Some _ => true | None => false end.

(** What the task of [query] yields: the cached results, or else the
    outcome of the web search. *)
Definition task_value (s : FS) (query : string) : Outcome SearchResults :=
  match entry s query with Some r => Ok r | None => web_search query end.

Definition start_state (s : FS) (query : string) : task_state :=
  match entry s query with Some r => Resolved r | None => Pending query end.

Lemma entry_cache_off (s : FS) (query : string) :
  useCache cc = false -> entry s query = None.
Proof.
  intros Hu. unfold CacheReads.cache_entry, cache_dir_in_use. rewrite Hu.
  by destruct (cacheDir cc).
Qed.

Lemma start_task_spec (query : string) (s : FS) :
  start_task md5hex json_parse cc query s = (start_state s query, s).
Proof.
  unfold start_task, start_state. destruct (useCache cc) eqn:Hu.
  - rewrite CacheReads.loadFromCache_exact. by destruct (entry s query).
  - by rewrite entry_cache_off.
Qed.

Lemma start_tasks_spec (queries : list string) (s : FS) :
  start_tasks md5hex json_parse cc queries s = (start_state s <$> queries, s).
Proof.
  induction queries as [|q qs IH]; [done|]. cbn [start_tasks].
  rewrite start_task_spec. cbn beta iota. rewrite IH. done.
Qed.

Lemma finish_task_resolved (query : string) (s : FS) r :
  fst (finish_task write_fails md5hex json_stringify web_search cc query s) = Resolved r ->
  web_search query = Ok r.
Proof.
  unfold finish_task. destruct (web_search query) as [r'|e]; [|discriminate].
  destruct (useCache cc);
    [destruct (saveToCache _ _ _ _ _ _ _) as [[]]|]; simpl; congruence.
Qed.

Lemma finish_task_not_pending (query : string) (s : FS) q :
  fst (finish_task write_fails md5hex json_stringify web_search cc query s) <> Pending q.
Proof.
  unfold finish_task. destruct (web_search query) as [r'|e]; [|discriminate].
  destruct (useCache cc);
    [destruct (saveToCache _ _ _ _ _ _ _) as [[]]|]; simpl; congruence.
Qed.

Lemma finish_task_throws (query : string) (s : FS) e :
  web_search query = Throws e ->
  finish_task write_fails md5hex json_stringify web_search cc query s = (Rejected e, s).
Proof. intros He. unfold finish_task. by rewrite He. Qed.

Lemma finish_task_cache_off (query : string) (s : FS) :
  useCache cc = false ->
  snd (finish_task write_fails md5hex json_stringify web_search cc query s) = s.
Proof.
  intros Hu. unfold finish_task. destruct (web_search query); [|done].
  by rewrite Hu.
Qed.

(** How a task may change while the searches settle. *)
Definition settles_to (rj : list string) (t t' : task_state) : Prop :=
  t' = t \/
  exists q, t = Pending q /\ (forall r, t' = Resolved r -> web_search q = Ok r) /\
            (forall e, t' = Rejected e -> e ∈ rj) /\ (forall q', t' <> Pending q').

Lemma finish_tasks_inv (ord : list nat) (ts : list task_state) (s : FS) rj ts' s' rj' :
  finishes ord ts s rj = (ts', s', rj') ->
  length ts' = length ts /\ rj `prefix_of` rj' /\
  forall i t', ts' !! i = Some t' -> exists t, ts !! i = Some t /\ settles_to rj' t t'.
Proof.
  revert ts s rj. induction ord as [|j ord IH]; intros ts s rj H; cbn [finish_tasks] in H.
  - injection H as <- <- <-. split; [done|]. split; [done|].
    intros i t' Hi. exists t'. split; [done|]. by left.
  - destruct (ts !! j) as [[r|e|q]|] eqn:Hj; try by apply IH in H.
    destruct (finish_task _ _ _ _ _ q s) as [t s1] eqn:Hf.
    apply IH in H as (Hlen & Hpre & Hrel).
    split; [by rewrite Hlen, length_insert|]. split.
    { destruct Hpre as [m ->]. eexists. by rewrite <- app_assoc. }
    intros i t' Hi. destruct (Hrel i t' Hi) as (t0 & Ht0 & Hs0).
    destruct (decide (i = j)) as [->|Hne].
    + rewrite list_lookup_insert_eq in Ht0 by (eapply lookup_lt_Some; eauto).
      injection Ht0 as <-. exists (Pending q). split; [done|]. right. exists q.
      assert (Hfin : forall q', t <> Pending q').
      { intros q' Hq. apply (finish_task_not_pending q s q'). by rewrite Hf. }
      destruct Hs0 as [-> | (q' & Hq' & _)]; [|by destruct (Hfin q')].
      split; [done|]. split; [|split; [|exact Hfin]].
      * intros r Hr. apply (finish_task_resolved q s). by rewrite Hf, Hr.
      * intros e He. destruct Hpre as [m ->]. subst t.
        apply elem_of_app. left. apply elem_of_app. right. by left.
    + rewrite list_lookup_insert_ne in Ht0 by congruence. eauto.
Qed.

Lemma finish_tasks_cache_off (ord : list nat) (ts : list task_state) (s : FS) rj ts' s' rj' :
  useCache cc = false -> finishes ord ts s rj = (ts', s', rj') -> s' = s.
Proof.
  intros Hu. revert ts s rj. induction ord as [|j ord IH]; intros ts s rj H;
    cbn [finish_tasks] in H.
  - by injection H.
  - destruct (ts !! j) as [[r|e|q]|] eqn:Hj; try by apply IH in H.
    pose proof (finish_task_cache_off q s Hu) as Hs.
    destruct (finish_task _ _ _ _ _ q s) as [t s1] eqn:Hf. simpl in Hs. subst s1.
    by apply IH in H.
Qed.

Lemma finish_tasks_rejects (ord : list nat) (ts : list task_state) (s : FS) rj
  ts' s' rj' j q e :
  NoDup ord -> j ∈ ord -> ts !! j = Some (Pending q) -> web_search q = Throws e ->
  finishes ord ts s rj = (ts', s', rj') -> e ∈ rj'.
Proof.
  intros Hnd Hj Hts He. revert ts s rj Hnd Hj Hts.
  induction ord as [|k ord IH]; intros ts s rj Hnd Hj Hts H;
    [by apply elem_of_nil in Hj|].
  apply NoDup_cons in Hnd as [Hk Hnd]. cbn [finish_tasks] in H.
  apply elem_of_cons in Hj as [-> | Hj].
  - rewrite Hts, (finish_task_throws q s e He) in H. simpl in H.
    apply finish_tasks_inv in H as (_ & [m ->] & _).
    apply elem_of_app. left. apply elem_of_app. right. by left.
  - assert (Hne : j <> k) by (intros ->; contradiction).
    destruct (ts !! k) as [[r|e'|q']|] eqn:Hk'; try by eapply IH.
    destruct (finish_task _ _ _ _ _ q' s) as [t s1] eqn:Hf.
    eapply IH; [done|done| |exact H].
    by rewrite list_lookup_insert_ne by congruence.
Qed.

Lemma finish_tasks_no_pending (ord : list nat) (ts : list task_state) (s : FS) rj
  ts' s' rj' :
  NoDup ord -> (forall j q, ts !! j = Some (Pending q) -> j ∈ ord) ->
  finishes ord ts s rj = (ts', s', rj') -> forall j q, ts' !! j <> Some (Pending q).
Proof.
  revert ts s rj. induction ord as [|k ord IH]; intros ts s rj Hnd Hall H;
    cbn [finish_tasks] in H.
  - injection H as <- <- <-. intros j q Hj. apply Hall in Hj. by apply elem_of_nil in Hj.
  - apply NoDup_cons in Hnd as [Hk Hnd].
    assert (Hnk : forall j q, ts !! j = Some (Pending q) -> ts !! k = ts !! j \/ j ∈ ord).
    { intros j q Hj. apply Hall in Hj. apply elem_of_cons in Hj as [->|Hj]; auto. }
    destruct (ts !! k) as [[r|e|q]|] eqn:Hts.
    + eapply IH; [exact Hnd| |exact H]. intros j q' Hj.
      destruct (Hnk j q' Hj) as [E|?]; [congruence|done].
    + eapply IH; [exact Hnd| |exact H]. intros j q' Hj.
      destruct (Hnk j q' Hj) as [E|?]; [congruence|done].
    + destruct (finish_task _ _ _ _ _ q s) as [t s1] eqn:Hf.
      eapply IH; [exact Hnd| |exact H]. intros j q' Hj.
      destruct (decide (j = k)) as [->|Hne].
      * rewrite list_lookup_insert_eq in Hj by (eapply lookup_lt_Some; eauto).
        injection Hj as Hj. exfalso. apply (finish_task_not_pending q s q').
        by rewrite Hf.
      * rewrite list_lookup_insert_ne in Hj by congruence.
        destruct (Hnk j q' Hj) as [E|?]; [|done].
        apply Hall in Hj. apply elem_of_cons in Hj as [->|?]; done.
    + eapply IH; [exact Hnd| |exact H]. intros j q' Hj.
      destruct (Hnk j q' Hj) as [E|?]; [congruence|done].
Qed.


Lemma resolved_all_Some (ts : list task_state) rl :
  resolved_all ts = Some rl -> ts = Resolved <$> rl.
Proof.
  revert rl; induction ts as [|[r|e|q] ts IH]; intros rl H; simpl in H; try discriminate.
  - by injection H as <-.
  - destruct (resolved_all ts) as [l|] eqn:E; [|discriminate].
    injection H as <-. rewrite fmap_cons. f_equal. by apply IH.
Qed.

Lemma resolved_all_None (ts : list task_state) :
  resolved_all ts = None -> exists i t, ts !! i = Some t /\ forall r, t <> Resolved r.
Proof.
  induction ts as [|[r|e|q] ts IH]; simpl; intros H; try discriminate.
  - destruct (resolved_all ts) eqn:E; [discriminate|].
    destruct (IH eq_refl) as (i & t & Hi & Ht). by exists (S i), t.
  - exists 0%nat, (Rejected e). split; [done|congruence].
  - exists 0%nat, (Pending q). split; [done|congruence].
Qed.

Lemma fold_add (rl : list SearchResults) (acc : SearchResults) :
  results (fold_left add rl acc) = results acc ++ concat (results <$> rl).
Proof.
  revert acc; induction rl as [|r rl IH]; intros acc; simpl.
  - by rewrite app_nil_r.
  - rewrite IH. simpl. by rewrite app_assoc.
Qed.

Lemma omap_pending (s : FS) (queries : list string) :
  omap task_pending (start_state s <$> queries)
  = List.filter (fun q => negb (cache_hit s q)) queries.
Proof.
  induction queries as [|q qs IH]; [done|]. rewrite fmap_cons.
  cbn [List.filter]. unfold start_state at 1.
  assert (Hc : cache_hit s q = if entry s q then true else false) by done.
  rewrite Hc. destruct (entry s q); simpl; [exact IH|f_equal; exact IH].
Qed.

Lemma omap_rejection (s : FS) (queries : list string) :
  omap task_rejection (start_state s <$> queries) = [].
Proof.
  induction queries as [|q qs IH]; [done|]. rewrite fmap_cons.
  unfold start_state at 1. destruct (entry s q); simpl; exact IH.
Qed.

Lemma filter_miss_cache_off (s : FS) (queries : list string) :
  useCache cc = false -> List.filter (fun q => negb (cache_hit s q)) queries = queries.
Proof.
  intros Hu. induction queries as [|q qs IH]; [done|]. simpl.
  unfold cache_hit at 1. rewrite entry_cache_off by done. simpl. by rewrite IH.
Qed.

(** With [useCache] off, [performSearch] never touches the file system,
    whatever [cacheDir] holds, and sends every query to the web search. *)
Theorem performSearch_cache_off (queries : list string) (ord : list nat) (s : FS) :
  useCache cc = false ->
  snd (fst (performSearch write_fails md5hex json_stringify json_parse web_search cc queries ord s)) = s /\
  snd (performSearch write_fails md5hex json_stringify json_parse web_search cc queries ord s) = queries.
Proof.
  intros Hu. unfold performSearch. rewrite start_tasks_spec.
  destruct (finish_tasks _ _ _ _ _ _ _ _ _) as [[ts' s2] rj] eqn:E. simpl.
  split; [by eapply finish_tasks_cache_off|].
  rewrite omap_pending. by apply filter_miss_cache_off.
Qed.

(** The web search is called for exactly the queries whose cache entry is
    not readable when [performSearch] starts, in query order and once per
    occurrence: a cached query is never searched, and, since every cache
    lookup happens before any cache write, a query that occurs twice and
    misses is searched twice. *)
Theorem performSearch_searches_misses (queries : list string) (ord : list nat) (s : FS) :
  snd (run queries ord s) = List.filter (fun q => negb (cache_hit s q)) queries.
Proof.
  unfold performSearch. rewrite start_tasks_spec.
  destruct (finish_tasks _ _ _ _ _ _ _ _ _) as [[ts' s2] rj] eqn:E. simpl.
  apply omap_pending.
Qed.

(** When [performSearch] succeeds, its result is the deduplication of the
    concatenation, in query order, of each query's results: the cached
    results read at the start, or else the results of the web search.
    So it does not depend on the order in which the searches settle, and
    its links are pairwise distinct. *)
Theorem performSearch_combines (queries : list string) (ord : list nat) (s : FS)
  (R : SearchResults) :
  fst (fst (run queries ord s)) = Some (Ok R) ->
  exists per : list SearchResults,
    Forall2 (fun q r => task_value s q = Ok r) queries per /\
    R = dedup (mkSearchResults (concat (results <$> per))) /\
    NoDup (link <$> results R).
Proof.
  unfold performSearch. rewrite start_tasks_spec.
  destruct (finish_tasks _ _ _ _ _ _ _ _ _) as [[ts' s2] rj] eqn:E. simpl.
  rewrite omap_rejection. simpl.
  destruct rj as [|e rj]; [|discriminate].
  destruct (resolved_all ts') as [rl|] eqn:Hra; [|discriminate].
  intros H. injection H as <-.
  apply resolved_all_Some in Hra as ->.
  apply finish_tasks_inv in E as (Hlen & _ & Hrel).
  rewrite !length_fmap in Hlen.
  exists rl. split; [|split].
  - apply Forall2_lookup. intros i.
    destruct (rl !! i) as [r|] eqn:Hr.
    + assert (Hi : (Resolved <$> rl) !! i = Some (Resolved r))
        by (rewrite list_lookup_fmap, Hr; done).
      destruct (Hrel i _ Hi) as (t & Ht & Hs).
      rewrite list_lookup_fmap in Ht.
      destruct (queries !! i) as [q|] eqn:Hq; [|discriminate].
      injection Ht as <-. constructor. unfold task_value.
      unfold start_state in Hs. destruct (entry s q) as [c|] eqn:Hc.
      * destruct Hs as [Hs | (q' & Hq' & _)]; [by injection Hs as ->|discriminate].
      * destruct Hs as [Hs | (q' & Hq' & Hok & _)]; [discriminate|].
        injection Hq' as <-. by apply Hok.
    + apply lookup_ge_None in Hr. rewrite (proj2 (lookup_ge_None queries i)) by lia.
      constructor.
  - unfold dedup. by rewrite fold_add.
  - unfold dedup. simpl. apply Dedup.dedup_loop_NoDup.
Qed.

(** Once every web search has settled (the order [ord] runs through all
    tasks), a search that throws for a query the cache does not serve
    makes [performSearch] throw: no search error is caught. *)
Theorem performSearch_search_failure (queries : list string) (ord : list nat)
  (s : FS) (q e : string) :
  ord ≡ₚ seq 0 (length queries) -> q ∈ queries -> cache_hit s q = false ->
  web_search q = Throws e ->
  exists e', fst (fst (run queries ord s)) = Some (Throws e').
Proof.
  intros Hperm Hq Hmiss He.
  apply list_elem_of_lookup_1 in Hq as [j Hj].
  unfold performSearch. rewrite start_tasks_spec.
  destruct (finish_tasks _ _ _ _ _ _ _ _ _) as [[ts' s2] rj] eqn:E. simpl.
  rewrite omap_rejection. simpl.
  assert (Hin : e ∈ rj).
  { eapply (finish_tasks_rejects _ _ _ _ _ _ _ j); [| | |exact He|exact E].
    - rewrite Hperm. apply NoDup_seq.
    - rewrite Hperm. apply elem_of_seq. apply lookup_lt_Some in Hj. lia.
    - rewrite list_lookup_fmap, Hj. simpl. unfold start_state.
      unfold cache_hit in Hmiss. destruct (entry s q); [discriminate|done]. }
  destruct rj as [|e0 rj]; [by apply elem_of_nil in Hin|]. eauto.
Qed.


End Runs.

End Search.

(* ------------------------------------------------------------------ *)
(** ** What the iterative research accumulates *)

Module LoopRuns.

(** The query batches handed to the search step, in call order. *)
Definition batches (tr : list event) : list (list string) :=
  omap (fun e => match e with Searched q => Some q | Evaluated _ => None end) tr.

Section Accumulate.
Variable cfg : ResearchConfig.
Variable evaluate : Evaluator.
Variable search : Searcher.
Variable topic : string.

Local Abbreviation loop := (research_loop cfg evaluate search topic).

Lemma research_loop_accumulates i fuel r qs :
  let '(r', qs', tr) := loop i fuel r qs in
  qs' = qs ++ concat (batches tr) /\
  results r' = results r ++ concat ((fun b => results (search b)) <$> batches tr).
Proof.
  revert i r qs; induction fuel as [|fuel IH]; intros i r qs; simpl.
  - by rewrite !app_nil_r.
  - destruct (evaluate i topic r qs) as [|q0 qs0]; [simpl; by rewrite !app_nil_r|].
    set (b := if 0 <? maxQueries cfg then slice0 (q0 :: qs0) (maxQueries cfg)
              else q0 :: qs0).
    specialize (IH (S i) (add r (search b)) (qs ++ b)).
    destruct (loop (S i) fuel _ _) as [[r' qs'] tr] eqn:E.
    destruct IH as [-> Hr]. simpl. rewrite Hr. simpl.
    by rewrite !app_assoc.
Qed.

Lemma research_loop_batches i fuel r qs :
  Forall (fun b => b <> [] /\
            (0 < maxQueries cfg -> (length b <= Z.to_nat (maxQueries cfg))%nat))
    (batches (snd (loop i fuel r qs))).
Proof.
  revert i r qs; induction fuel as [|fuel IH]; intros i r qs; simpl; [constructor|].
  destruct (evaluate i topic r qs) as [|q0 qs0]; [constructor|].
  set (b := if 0 <? maxQueries cfg then slice0 (q0 :: qs0) (maxQueries cfg)
            else q0 :: qs0).
  specialize (IH (S i) (add r (search b)) (qs ++ b)).
  destruct (loop (S i) fuel _ _) as [[r' qs'] tr] eqn:E. simpl in *.
  constructor; [|exact IH]. unfold b, slice0.
  destruct (0 <? maxQueries cfg) eqn:Hm.
  - apply Z.ltb_lt in Hm. split.
    + destruct (Z.to_nat (maxQueries cfg)) eqn:Hn; [lia|]. done.
    + intros _. rewrite length_take. lia.
  - apply Z.ltb_ge in Hm. split; [done|lia].
Qed.

End Accumulate.

(** [conductIterativeResearch] only appends: the final query list is the
    initial one followed by every batch sent to the search step, and the
    final results are the initial ones followed by each batch's search
    results, in call order, with no deduplication in between. Every batch
    is non-empty and, when [maxQueries > 0], holds at most [maxQueries]
    queries. *)
Theorem conductIterativeResearch_accumulates (cfg : ResearchConfig)
  (evaluate : Evaluator) (search : Searcher) (topic : string)
  (initialResults : SearchResults) (allQueries : list string) :
  let '(r', qs', tr) :=
    conductIterativeResearch cfg evaluate search topic initialResults allQueries in
  qs' = allQueries ++ concat (batches tr) /\
  results r' = results initialResults
               ++ concat ((fun b => results (search b)) <$> batches tr) /\
  Forall (fun b => b <> [] /\
            (0 < maxQueries cfg -> (length b <= Z.to_nat (maxQueries cfg))%nat))
    (batches tr).
Proof.
  unfold conductIterativeResearch.
  pose proof (research_loop_accumulates cfg evaluate search topic 0
                (Z.to_nat (budget cfg)) initialResults allQueries) as H.
  pose proof (research_loop_batches cfg evaluate search topic 0
                (Z.to_nat (budget cfg)) initialResults allQueries) as Hb.
  destruct (research_loop _ _ _ _ _ _ _ _) as [[r' qs'] tr].
  destruct H as [Hq Hr]. simpl in Hb. auto.
Qed.

End LoopRuns.

(* ------------------------------------------------------------------ *)
(** ** Deduplicating per batch, then again *)

Module DedupCompose.

Lemma dedup_loop_app (S : gset string) (l1 l2 : list SearchResult) :
  dedup_loop S (l1 ++ l2)
  = dedup_loop S l1 ++ dedup_loop (S ∪ list_to_set (link <$> l1)) l2.
Proof.
  revert S; induction l1 as [|r l1 IH]; intros S; simpl.
  - by rewrite union_empty_r_L.
  - case_decide as Hr.
    + rewrite IH. do 2 f_equal. set_solver.
    + rewrite IH. simpl. do 3 f_equal. set_solver.
Qed.

Lemma dedup_loop_absorb (U S : gset string) (A : list SearchResult) :
  U ⊆ S -> dedup_loop S (dedup_loop U A) = dedup_loop S A.
Proof.
  revert U S; induction A as [|r A IH]; intros U S HU; simpl; [done|].
  case_decide as HrU.
  - rewrite IH by done. case_decide; [done|set_solver].
  - simpl. case_decide as HrS.
    + apply IH. set_solver.
    + f_equal. apply IH. set_solver.
Qed.

Lemma dedup_loop_links_union (U S : gset string) (A : list SearchResult) :
  U ⊆ S ->
  S ∪ list_to_set (link <$> dedup_loop U A) = S ∪ list_to_set (link <$> A).
Proof.
  intros HU. apply set_eq. intros u.
  rewrite !elem_of_union, !elem_of_list_to_set, Dedup.dedup_loop_links.
  destruct (decide (u ∈ U)); set_solver.
Qed.

Lemma dedup_loop_concat (S : gset string) (bs : list SearchResults) :
  dedup_loop S (concat ((fun b => results (dedup b)) <$> bs))
  = dedup_loop S (concat (results <$> bs)).
Proof.
  revert S; induction bs as [|b bs IH]; intros S; simpl; [done|].
  unfold dedup; simpl.
  rewrite !dedup_loop_app, dedup_loop_absorb by set_solver.
  rewrite dedup_loop_links_union by set_solver. by rewrite IH.
Qed.

(** Deduplicating each batch before concatenating changes nothing once
    the concatenation is deduplicated again: the result is the
    deduplication of all raw results, in order. *)
Theorem dedup_concat_dedup (bs : list SearchResults) :
  dedup (mkSearchResults (concat ((fun b => results (dedup b)) <$> bs)))
  = dedup (mkSearchResults (concat (results <$> bs))).
Proof. unfold dedup at 1 3. simpl. f_equal. apply dedup_loop_concat. Qed.

End DedupCompose.

(* ------------------------------------------------------------------ *)
(** ** runResearch *)

Module Run.

Lemma length_omap_le {A B} (f : A -> option B) (l : list A) :
  (length (omap f l) <= length l)%nat.
Proof.
  induction l as [|a l IH]; [simpl; lia|].
  change (omap f (a :: l)) with
    (match f a with Some b => b :: omap f l | None => omap f l end).
  destruct (f a); simpl; lia.
Qed.

Lemma doc_at_elem (rs : list SearchResult) (i : Z) d :
  Filter.doc_at rs i = Some d -> d ∈ rs.
Proof.
  unfold Filter.doc_at. destruct (_ && _); [|discriminate].
  apply list_elem_of_lookup_2.
Qed.

Lemma omap_doc_at_elem (rs : list SearchResult) (l : list Z) d :
  d ∈ omap (Filter.doc_at rs) l -> d ∈ rs.
Proof.
  induction l as [|i l IH]; simpl; [by intros ?%elem_of_nil|].
  destruct (Filter.doc_at rs i) as [d'|] eqn:E; [|exact IH].
  intros [-> | H]%elem_of_cons; [by eapply doc_at_elem|auto].
Qed.

Lemma feedback_loop_no_input cfg userTimeout answerer fuel t a F st :
  feedback_loop cfg userTimeout answerer fuel t a F st = (a, st).
Proof. destruct fuel; simpl; [done|]. by destruct (_ <? _). Qed.

Section Runs.
Variable cfg : ResearchConfig.
Variable userTimeout : Z.
Variable generateResearchQueries : string -> list string.
Variable search : Searcher.
Variable evaluate : Evaluator.
Variable filterSources : string -> SearchResults -> list Z.
Variable generateResearchAnswer : string -> SearchResults -> string.
Variable dflt : SearchResult.

Local Abbreviation run := (runResearch cfg userTimeout generateResearchQueries search
  evaluate filterSources generateResearchAnswer dflt).



End Runs.

(** With a search step that deduplicates each batch, as [performSearch]
    does, the results [runResearch] hands to the filter are the
    deduplication of all raw hits, the initial batch's first and then
    each refinement batch's, in call order. *)
Theorem processed_results_dedup_all (cfg : ResearchConfig) (evaluate : Evaluator)
  (raw : list string -> SearchResults) (topic : string) (Q0 : list string) :
  let search := fun qs => dedup (raw qs) in
  let '(r, _, tr) := conductIterativeResearch cfg evaluate search topic (search Q0) Q0 in
  processSearchResults topic r
  = dedup (mkSearchResults (concat (results <$> (raw <$> (Q0 :: LoopRuns.batches tr))))).
Proof.
  intros search. unfold conductIterativeResearch.
  pose proof (LoopRuns.research_loop_accumulates cfg evaluate search topic 0
                (Z.to_nat (budget cfg)) (search Q0) Q0) as Hacc.
  destruct (research_loop _ _ _ _ _ _ _ _) as [[r qs] tr].
  destruct Hacc as [_ Hr]. unfold processSearchResults.
  destruct r as [rr]. simpl in Hr. subst rr. unfold dedup. simpl. f_equal.
  pose proof (DedupCompose.dedup_loop_concat ∅ (raw Q0 :: (raw <$> LoopRuns.batches tr)))
    as Hc.
  rewrite !fmap_cons, <- !list_fmap_compose in Hc. rewrite <- list_fmap_compose.
  exact Hc.
Qed.

End Run.

(* ------------------------------------------------------------------ *)
(** ** The constructor *)

Module Construction.

Lemma constructor_heap (rc : nat) (options : Options) home userprofile (h : Heap) o :
  h !! rc = Some o ->
  exists o', snd (new_DeepResearchPipeline rc options home userprofile h) !! rc = Some o' /\
    maxQueries (config_fields o')
    = default (maxQueries (config_fields o)) (opt_maxQueries options).
Proof.
  intros Ho. unfold new_DeepResearchPipeline. cbv beta zeta. cbn [snd].
  destruct (opt_maxQueries options) as [m|], (opt_maxSources options) as [m'|],
    (opt_maxCompletionTokens options) as [t|];
    rewrite ?lookup_alter, ?Ho; repeat case_decide; try congruence;
    eexists; (split; [reflexivity|]); done.
Qed.

(** Every pipeline built on the same [researchConfig] object (by default
    the module's [RESEARCH_CONFIG]) shares it: the constructor writes its
    [maxQueries] option into that object, so a later pipeline's option
    changes the configuration an earlier pipeline reads. *)
Theorem constructor_shares_config (rc : nat) (optsA optsB : Options)
  home userprofile (h : Heap) o pA h1 pB h2 m :
  h !! rc = Some o ->
  new_DeepResearchPipeline rc optsA home userprofile h = (pA, h1) ->
  new_DeepResearchPipeline rc optsB home userprofile h1 = (pB, h2) ->
  opt_maxQueries optsB = Some m ->
  researchConfig pA = researchConfig pB /\
  (fun o => maxQueries (config_fields o)) <$> h2 !! researchConfig pA = Some m.
Proof.
  intros Ho HA HB Hm.
  destruct (constructor_heap rc optsA home userprofile h o Ho) as (o1 & Ho1 & _).
  rewrite HA in Ho1. simpl in Ho1.
  destruct (constructor_heap rc optsB home userprofile h1 o1 Ho1) as (o2 & Ho2 & Hq).
  rewrite HB in Ho2. simpl in Ho2.
  injection HA as <- _. injection HB as <- _. simpl.
  split; [done|]. rewrite Ho2. simpl. by rewrite Hq, Hm.
Qed.

Lemma js_or_str_nonempty (a : option string) (b : string) :
  b <> EmptyString -> js_or_str a b <> EmptyString.
Proof.
  unfold js_or_str, js_truthy_opt. destruct a as [s|]; [|done].
  destruct (String.eqb s EmptyString) eqn:E; simpl; [done|].
  intros _ ->. discriminate E.
Qed.

(** The cache of a new pipeline is in use exactly when the [useCache]
    option is [true]: the directory it then uses is never empty (an
    empty or missing [cacheDir] falls back to a directory under the
    home directory). *)
Theorem constructor_cache_in_use (rc : nat) (options : Options)
  home userprofile (h : Heap) :
  is_Some (cache_dir_in_use
             (pipeline_cache (fst (new_DeepResearchPipeline rc options home userprofile h))))
  <-> opt_useCache options = Some true.
Proof.
  unfold new_DeepResearchPipeline, pipeline_cache, cache_dir_in_use. simpl.
  destruct (opt_useCache options) as [[]|]; simpl.
  - set (dir := js_or_str _ _).
    assert (Hd : dir <> EmptyString).
    { apply js_or_str_nonempty. unfold path_join_segments, path_join.
      destruct (String.eqb _ EmptyString); [discriminate|].
      destruct (js_or_str home _); discriminate. }
    apply String.eqb_neq in Hd. rewrite Hd. simpl. split; [done|]. by eexists.
  - split; [by intros []|discriminate].
  - split; [by intros []|discriminate].
Qed.

End Construction.

(* ------------------------------------------------------------------ *)
(** ** Concrete cache runs *)

Module CacheRuns.

Definition md5_stub : string -> string := fun q => q.
Definition cc0 : CacheConfig := mkCacheConfig true (Some "/cache"%string).
Definition R0 : SearchResults := mkSearchResults [mkSearchResult "a" "b" "c" None].
Definition R1 : SearchResults := mkSearchResults [].
Definition no_failures : string -> FS -> bool := fun _ _ => false.
(** The cache file of query [q] cannot be written. *)
Definition cache_write_fails : string -> FS -> bool :=
  fun p _ => String.eqb p (getCachePath md5_stub "/cache" "q").

Lemma saveToCache_releases_lock_witness :
  cache_dir_in_use cc0 = Some "/cache"%string /\
  snd (saveToCache cache_write_fails md5_stub Codec.stringify cc0 "q" R0 ∅)
    !! getLockPath (getCachePath md5_stub "/cache" "q") = None.
Proof.
  split; [reflexivity|].
  apply (proj2 (CacheFacts.saveToCache_releases_lock cache_write_fails md5_stub
                  Codec.stringify cc0 "/cache" "q" R0 ∅ eq_refl)).
  reflexivity.
Defined.

Lemma cache_put_get_witness :
  cache_dir_in_use cc0 = Some "/cache"%string /\
  fst (loadFromCache md5_stub Codec.parse cc0 "q"
         (run_puts no_failures md5_stub Codec.stringify cc0 [("other"%string, R1)]
            (snd (saveToCache no_failures md5_stub Codec.stringify cc0 "q" R0 ∅))))
  = Ok (Some R0).
Proof.
  split; [reflexivity|].
  apply (proj1 (CacheFacts.cache_put_get no_failures md5_stub Codec.stringify
                  Codec.parse Codec.parse_stringify cc0 "/cache" "q" R0 eq_refl)).
  - reflexivity.
  - constructor; [|constructor]. simpl. intros H. vm_compute in H. discriminate H.
Defined.

End CacheRuns.

(* ------------------------------------------------------------------ *)
(** ** Concrete runs of the remaining functions *)

Module ExtraRuns.

Import CacheRuns.

Definition R3 : SearchResults := mkSearchResults [Filter.d1; Filter.d2; Filter.d3].


(** An Exa answer with one hit without text, and a summarizer. *)
Definition exa_stub : ExaSearch := fun _ =>
  Ok [mkExaResult (Some "T"%string) "u1" "text1"; mkExaResult None "u2" EmptyString].
Definition summ_stub : Summarizer := fun _ _ => Ok "sum"%string.
Definition R_ws : SearchResults := mkSearchResults [mkSearchResult "T" "u1" "text1" (Some "sum")].

Lemma webSearch_ok_witness :
  webSearch exa_stub summ_stub "q" = Ok R_ws /\
  exists hits,
    exa_stub (webSearch_query "q") = Ok hits /\
    Forall2 (fun h d =>
        link d = url h /\ content d = text h /\ text h <> EmptyString /\
        title d = title (exa_result_to_SearchResult h) /\
        exists s, summ_stub (exa_result_to_SearchResult h) (webSearch_query "q") = Ok s /\
                  filteredRawContent d = Some s)
      (List.filter WebSearchFacts.has_text hits) (results R_ws).
Proof.
  split; [vm_compute; reflexivity|].
  apply (WebSearchFacts.webSearch_ok exa_stub summ_stub "q" R_ws).
  vm_compute; reflexivity.
Defined.

(** A file system holding an older cache file for ["q"]. *)
Definition fs_old : FS := {[getCachePath md5_stub "/cache" "q" := "old"%string]}.


(** A web search that returns one document per query, and one that
    throws for ["b"]. *)
Definition web_ok : string -> Outcome SearchResults := fun q =>
  Ok (mkSearchResults [mkSearchResult q q q None]).
Definition web_fails_b : string -> Outcome SearchResults := fun q =>
  if String.eqb q "b" then Throws "boom"%string else web_ok q.
Definition cc_off : CacheConfig := mkCacheConfig false (Some "/cache"%string).
(** A file system with a cache entry for ["a"]. *)
Definition fs_a : FS := {[getCachePath md5_stub "/cache" "a" := Codec.stringify R0]}.

Lemma performSearch_cache_off_witness :
  useCache cc_off = false /\
  snd (fst (performSearch no_failures md5_stub Codec.stringify Codec.parse web_ok cc_off
              ["a"; "b"] [1; 0]%nat fs_a)) = fs_a /\
  snd (performSearch no_failures md5_stub Codec.stringify Codec.parse web_ok cc_off
         ["a"; "b"] [1; 0]%nat fs_a) = ["a"; "b"]%string.
Proof.
  split; [reflexivity|].
  apply (Search.performSearch_cache_off no_failures md5_stub Codec.stringify Codec.parse
           web_ok cc_off ["a"; "b"]%string [1; 0]%nat fs_a).
  reflexivity.
Defined.

Definition R_ab : SearchResults :=
  mkSearchResults [mkSearchResult "a" "b" "c" None; mkSearchResult "b" "b" "b" None].

Lemma performSearch_combines_witness :
  fst (fst (performSearch no_failures md5_stub Codec.stringify Codec.parse web_ok cc0
              ["a"; "b"] [1%nat] fs_a)) = Some (Ok (dedup R_ab)) /\
  exists per : list SearchResults,
    Forall2 (fun q r => Search.task_value md5_stub Codec.parse web_ok cc0 fs_a q = Ok r)
      ["a"; "b"]%string per /\
    dedup R_ab = dedup (mkSearchResults (concat (results <$> per))) /\
    NoDup (link <$> results (dedup R_ab)).
Proof.
  split; [vm_compute; reflexivity|].
  apply (Search.performSearch_combines no_failures md5_stub Codec.stringify Codec.parse
           web_ok cc0 ["a"; "b"]%string [1%nat] fs_a (dedup R_ab)).
  vm_compute; reflexivity.
Defined.

Lemma performSearch_search_failure_witness :
  [1; 0]%nat ≡ₚ seq 0 (length ["a"; "b"]%string) /\
  Search.cache_hit md5_stub Codec.parse cc0 fs_a "b" = false /\
  exists e', fst (fst (performSearch no_failures md5_stub Codec.stringify Codec.parse
                         web_fails_b cc0 ["a"; "b"] [1; 0]%nat fs_a)) = Some (Throws e').
Proof.
  assert (Hp : [1; 0]%nat ≡ₚ seq 0 (length ["a"; "b"]%string)) by (simpl; apply perm_swap).
  split; [exact Hp|]. split; [vm_compute; reflexivity|].
  apply (Search.performSearch_search_failure no_failures md5_stub Codec.stringify
           Codec.parse web_fails_b cc0 ["a"; "b"]%string [1; 0]%nat fs_a "b" "boom").
  - exact Hp.
  - apply list_elem_of_In. simpl. auto.
  - vm_compute; reflexivity.
  - reflexivity.
Defined.


Definition no_opts : Options := mkOptions None None None None None None None.
Definition opts_q7 : Options := mkOptions (Some 7) None None None None None None.

Lemma constructor_shares_config_witness :
  exists pA h1 pB h2,
    new_DeepResearchPipeline RESEARCH_CONFIG_ref no_opts None None initial_heap = (pA, h1) /\
    new_DeepResearchPipeline RESEARCH_CONFIG_ref opts_q7 None None h1 = (pB, h2) /\
    researchConfig pA = researchConfig pB /\
    (fun o => maxQueries (config_fields o)) <$> h2 !! researchConfig pA = Some 7.
Proof.
  do 4 eexists. split; [reflexivity|]. split; [reflexivity|].
  eapply (Construction.constructor_shares_config RESEARCH_CONFIG_ref no_opts opts_q7
           None None initial_heap RESEARCH_CONFIG); reflexivity.
Defined.

End ExtraRuns.
